(** * A shallow embedding of the PDF editor's document mutation core

    Sources: [src/utils/pdfUtils.ts] (the mutation engine and the range
    parser), [src/App.tsx] (the handlers that keep the page model in step
    with the bytes) and [types/pdf.ts] (the records).

    JavaScript values are modelled as follows.
    - A string is the list of its UTF-16 code units ([jsstring]).
    - A number that the code uses as an integer (a result of [parseInt], an
      array index, a page count, a rotation angle) is [Num z], or [NaN].
      The integers are exact; doubles are exact below 2^53, and a rule
      accepted by [parseMergeRules] for a page count below 2^53 has both
      bounds below it.
    - Page geometry (sizes, crop boxes, mouse coordinates) is IEEE-754
      binary64, the kernel's primitive [float].
    - An awaited call that can throw returns [option]; [None] is the
      exception, which every handler catches and turns into an alert.
    - A handler runs from start to end without another handler in between
      (the editor blocks its controls while one runs), so a handler is a
      function from the component state to the next state and an outcome.
    - The PDF library and the rasterizer are not part of the repository; a
      PDF buffer is modelled by the page sequence it encodes. *)

From Stdlib Require Import Ascii String.
From Stdlib Require Import List ZArith NArith Bool Lia Permutation.
From Stdlib Require Import Floats QArith.
From Stdlib Require DecimalNat DecimalFacts.
Import ListNotations.
Open Scope Z_scope.

Set Implicit Arguments.

(* ================================================================== *)
(** * JavaScript strings and numbers *)
(* ================================================================== *)

Module Js.

(** A string: its UTF-16 code units. *)
Definition jsstring := list N.

(** The code units of an ASCII literal. *)
Definition js (s : string) : jsstring :=
  map N_of_ascii (list_ascii_of_string s).

Definition comma : N := 44%N.
Definition hyphen : N := 45%N.
Definition plus : N := 43%N.

(** [WhiteSpace] and [LineTerminator] of ECMA-262, which [trim] and
    [parseInt] strip. *)
Definition whiteSpaceUnits : list N :=
  [9; 10; 11; 12; 13; 32; 160; 5760;
   8192; 8193; 8194; 8195; 8196; 8197; 8198; 8199; 8200; 8201; 8202;
   8232; 8233; 8239; 8287; 12288; 65279]%N.

Definition isWhiteSpace (c : N) : bool := existsb (N.eqb c) whiteSpaceUnits.

(** A number used as an integer: [parseInt]'s result. *)
Inductive number : Type :=
| NaN : number
| Num : Z -> number.

Definition isNaN (n : number) : bool :=
  match n with NaN => true | Num _ => false end.

(** [n - k] *)
Definition nsub (n : number) (k : Z) : number :=
  match n with NaN => NaN | Num z => Num (z - k) end.

(** Comparisons; every comparison with [NaN] is false. *)
Definition nge (n : number) (k : Z) : bool :=
  match n with NaN => false | Num z => k <=? z end.
Definition nlt (n : number) (k : Z) : bool :=
  match n with NaN => false | Num z => z <? k end.
Definition nle (n m : number) : bool :=
  match n, m with Num a, Num b => a <=? b | _, _ => false end.

(** [Array.prototype.includes] compares with SameValueZero, under which
    [NaN] equals [NaN]. *)
Definition sameValueZero (n m : number) : bool :=
  match n, m with
  | NaN, NaN => true
  | Num a, Num b => a =? b
  | _, _ => false
  end.

Definition includesNum (l : list number) (n : number) : bool :=
  existsb (sameValueZero n) l.

(** ** String methods *)

(** [s.split(sep)] for a one-unit separator: never empty; [""] gives [[""]]. *)
Fixpoint split (sep : N) (s : jsstring) : list jsstring :=
  match s with
  | [] => [[]]
  | c :: s' =>
      if N.eqb c sep then [] :: split sep s'
      else match split sep s' with
           | [] => [[c]]
           | h :: t => (c :: h) :: t
           end
  end.

Fixpoint trimStart (s : jsstring) : jsstring :=
  match s with
  | [] => []
  | c :: s' => if isWhiteSpace c then trimStart s' else s
  end.

Fixpoint trimEnd (s : jsstring) : jsstring :=
  match s with
  | [] => []
  | c :: s' =>
      match trimEnd s' with
      | [] => if isWhiteSpace c then [] else [c]
      | r => c :: r
      end
  end.

Definition trim (s : jsstring) : jsstring := trimEnd (trimStart s).

(** [s.includes(c)] for a one-unit needle. *)
Definition includes (c : N) (s : jsstring) : bool := existsb (N.eqb c) s.

(** A string is truthy when it is not empty. *)
Definition truthy (s : jsstring) : bool :=
  match s with [] => false | _ => true end.

Fixpoint startsWith (s p : jsstring) : bool :=
  match p, s with
  | [], _ => true
  | _ :: _, [] => false
  | a :: p', b :: s' => N.eqb a b && startsWith s' p'
  end.

Fixpoint eqbStr (s t : jsstring) : bool :=
  match s, t with
  | [], [] => true
  | a :: s', b :: t' => N.eqb a b && eqbStr s' t'
  | _, _ => false
  end.

(** [s.replace(p, "")] for a string pattern: the first occurrence goes. *)
Fixpoint removeFirst (p s : jsstring) : jsstring :=
  if startsWith s p then skipn (length p) s
  else match s with
       | [] => []
       | c :: s' => c :: removeFirst p s'
       end.

(** ** parseInt *)

(** The value of a digit in radixes up to 36. *)
Definition digitValue (c : N) : option Z :=
  if (48 <=? c)%N && (c <=? 57)%N then Some (Z.of_N c - 48)
  else if (97 <=? c)%N && (c <=? 122)%N then Some (Z.of_N c - 87)
  else if (65 <=? c)%N && (c <=? 90)%N then Some (Z.of_N c - 55)
  else None.

(** The longest prefix of radix digits, as a number; [acc] is [None] until a
    digit has been read. *)
Fixpoint parseDigits (radix : Z) (acc : option Z) (s : jsstring) : option Z :=
  match s with
  | [] => acc
  | c :: s' =>
      match digitValue c with
      | Some d =>
          if d <? radix
          then parseDigits radix
                 (Some (radix * match acc with Some a => a | None => 0 end + d)) s'
          else acc
      | None => acc
      end
  end.

(** A leading [0x] or [0X], stripped when the radix is 16. *)
Definition stripHexPrefix (s : jsstring) : jsstring :=
  match s with
  | 48%N :: x :: s' => if N.eqb x 120 || N.eqb x 88 then s' else s
  | _ => s
  end.

(** [parseInt(s, radix)] for a radix in 2..36: leading white space, a sign,
    then the longest digit prefix; [NaN] when that prefix is empty. *)
Definition parseInt (s : jsstring) (radix : Z) : number :=
  let s1 := trimStart s in
  let '(sign, s2) :=
    match s1 with
    | c :: r => if N.eqb c hyphen then (-1, r)
                else if N.eqb c plus then (1, r) else (1, s1)
    | [] => (1, s1)
    end in
  let s3 := if radix =? 16 then stripHexPrefix s2 else s2 in
  match parseDigits radix None s3 with
  | None => NaN
  | Some m => Num (sign * m)
  end.

(** An array element that may be missing: [undefined] converts to the
    string ["undefined"] when passed where a string is expected. *)
Definition toStringOr (x : option jsstring) : jsstring :=
  match x with Some s => s | None => js "undefined" end.

(** The decimal digits of a natural number, as [String(n)] gives them. *)
Fixpoint unitsOfUint (u : Decimal.uint) : jsstring :=
  match u with
  | Decimal.Nil => []
  | Decimal.D0 u => 48%N :: unitsOfUint u
  | Decimal.D1 u => 49%N :: unitsOfUint u
  | Decimal.D2 u => 50%N :: unitsOfUint u
  | Decimal.D3 u => 51%N :: unitsOfUint u
  | Decimal.D4 u => 52%N :: unitsOfUint u
  | Decimal.D5 u => 53%N :: unitsOfUint u
  | Decimal.D6 u => 54%N :: unitsOfUint u
  | Decimal.D7 u => 55%N :: unitsOfUint u
  | Decimal.D8 u => 56%N :: unitsOfUint u
  | Decimal.D9 u => 57%N :: unitsOfUint u
  end.

Definition natToString (n : nat) : jsstring := unitsOfUint (Nat.to_uint n).

End Js.
Import Js.

(* ================================================================== *)
(** * Range/rule parser ([parseMergeRules], pdfUtils.ts) *)
(* ================================================================== *)

(** [types/pdf.ts]: [interface MergeRule { start: number; end: number }]. *)
Record MergeRule : Type := mkRule { start : number; end_ : number }.

(** The body of the [for (const part of parts)] loop: the rules after
    [part] has been handled. *)
Definition parsePart (maxPage : Z) (rules : list MergeRule) (part : jsstring)
  : list MergeRule :=
  if includes hyphen part then
    let segs := map trim (split hyphen part) in
    let startStr := nth_error segs 0 in
    let endStr := nth_error segs 1 in
    let start := nsub (parseInt (toStringOr startStr) 10) 1 in
    let end_ := nsub (parseInt (toStringOr endStr) 10) 1 in
    if negb (isNaN start) && negb (isNaN end_) && nge start 0
       && nlt end_ maxPage && nle start end_
    then rules ++ [mkRule start end_]
    else rules
  else
    let pageNum := nsub (parseInt part 10) 1 in
    if negb (isNaN pageNum) && nge pageNum 0 && nlt pageNum maxPage
    then rules ++ [mkRule pageNum pageNum]
    else rules.

(** [input.split(',').map(s => s.trim()).filter(s => s)] *)
Definition parts (input : jsstring) : list jsstring :=
  filter truthy (map trim (split comma input)).

Definition parseMergeRules (input : jsstring) (maxPage : Z) : list MergeRule :=
  fold_left (parsePart maxPage) (parts input) [].

Definition rule (s e : Z) : MergeRule := mkRule (Num s) (Num e).


(* ================================================================== *)
(** * Arithmetic of page geometry *)
(* ================================================================== *)

(** The four operations [cropPage] uses.  The code runs them on doubles
    ([floatArith]); [ratArith] is the same formulas in exact arithmetic. *)
Class Arith (T : Type) : Type := {
  add : T -> T -> T;
  sub : T -> T -> T;
  mul : T -> T -> T;
  div : T -> T -> T
}.

#[export] Instance floatArith : Arith float :=
  {| add := PrimFloat.add; sub := PrimFloat.sub;
     mul := PrimFloat.mul; div := PrimFloat.div |}.


(** [types/pdf.ts]: [interface CropBox { x; y; width; height }]. *)
Record CropBox (T : Type) : Type :=
  mkBox { x : T; y : T; width : T; height : T }.

(** Lines 193-200 of [cropPage]: from screen coordinates to PDF coordinates.
    [pw], [ph] are the page's own size ([page.getSize()]); [pageWidth],
    [pageHeight] are the preview's. *)
Definition toPdfBox {T : Type} `{Arith T}
  (pw ph : T) (cropBox : CropBox T) (pageWidth pageHeight : T) : CropBox T :=
  let scaleX := div pw pageWidth in
  let scaleY := div ph pageHeight in
  let x' := mul (x cropBox) scaleX in
  let y' := sub ph (mul (add (y cropBox) (height cropBox)) scaleY) in
  let w := mul (width cropBox) scaleX in
  let h := mul (height cropBox) scaleY in
  mkBox x' y' w h.

(** A parsed integer as a double. *)
Definition toFloat (n : number) : float :=
  match n with
  | NaN => PrimFloat.nan
  | Num z =>
      if z <? 0 then PrimFloat.opp (PrimFloat.of_uint63 (Uint63.of_Z (- z)))
      else PrimFloat.of_uint63 (Uint63.of_Z z)
  end.

(* ================================================================== *)
(** * The PDF codec and the page rasterizer *)
(* ================================================================== *)

(** [types/pdf.ts]: [interface TextAnnotation]. *)
Record TextAnnotation : Type := mkAnnotation {
  ta_id : jsstring;
  ta_text : jsstring;
  ta_x : float;
  ta_y : float;
  ta_fontSize : float;
  ta_fontFamily : jsstring;
  ta_color : jsstring;
  ta_rotation : float;
  ta_width : float;
  ta_height : float
}.

Module Codec.

(** Modelled from the spec: the PDF codec of section 6 (pdf-lib, which the
    repository imports and does not contain).  A loaded document is its
    sequence of page handles; a handle carries the page's content (opaque),
    its rotation angle, its size, its crop box and the text drawn on it. *)
Record DrawnText : Type := mkDrawn {
  d_text : jsstring;
  d_x : float;
  d_y : float;
  d_size : float;
  d_color : float * float * float
}.

Record PDFPage : Type := mkPage {
  p_content : N;
  p_angle : Z;
  p_size : float * float;
  p_cropBox : option (CropBox float);
  p_drawn : list DrawnText
}.

(** Modelled from the spec: a byte buffer either encodes a page sequence or
    is not a PDF; [load] fails on the latter, and [load (save ps)] is [ps]. *)
Inductive ArrayBuffer : Type :=
| PdfBytes : list PDFPage -> ArrayBuffer
| NotPdf : ArrayBuffer.

Definition load (b : ArrayBuffer) : option (list PDFPage) :=
  match b with PdfBytes ps => Some ps | NotPdf => None end.

Definition save (ps : list PDFPage) : ArrayBuffer := PdfBytes ps.

(** [pages[i]]: [undefined] unless [i] is an integer within the array. *)
Definition pageAt (pages : list PDFPage) (i : number) : option PDFPage :=
  match i with
  | Num z => if z <? 0 then None else nth_error pages (Z.to_nat z)
  | NaN => None
  end.

(** Modelled from the spec: [copyPages(sourceDoc, indices)] gives the pages
    at [indices], in that order; an index with no page makes it throw. *)
Fixpoint copyPages (src : list PDFPage) (indices : list number)
  : option (list PDFPage) :=
  match indices with
  | [] => Some []
  | i :: rest =>
      match pageAt src i, copyPages src rest with
      | Some p, Some ps => Some (p :: ps)
      | _, _ => None
      end
  end.

(** [doc.getPageIndices()] *)
Definition getPageIndices (pages : list PDFPage) : list number :=
  map (fun i => Num (Z.of_nat i)) (seq 0 (length pages)).

Definition setRotation (p : PDFPage) (a : Z) : PDFPage :=
  mkPage (p_content p) a (p_size p) (p_cropBox p) (p_drawn p).

Definition setCropBox (p : PDFPage) (b : CropBox float) : PDFPage :=
  mkPage (p_content p) (p_angle p) (p_size p) (Some b) (p_drawn p).

Definition drawText (p : PDFPage) (d : DrawnText) : PDFPage :=
  mkPage (p_content p) (p_angle p) (p_size p) (p_cropBox p) (p_drawn p ++ [d]).

(** [pages[i] = p] on the loaded document. *)
Fixpoint setPage (pages : list PDFPage) (i : nat) (p : PDFPage) : list PDFPage :=
  match pages, i with
  | [], _ => []
  | _ :: rest, O => p :: rest
  | q :: rest, S j => q :: setPage rest j p
  end.

(** Modelled from the spec: the rasterizer of section 6 (pdf.js).  The image
    of a page is determined by the page and the scale. *)
Record Image : Type := mkImage { im_page : PDFPage; im_scale : float }.

End Codec.
Import Codec.

(* ================================================================== *)
(** * The mutation engine (pdfUtils.ts) *)
(* ================================================================== *)

Definition loadPDFDocument (arrayBuffer : ArrayBuffer) : option (list PDFPage) :=
  load arrayBuffer.

(** [pageNum] is 1-based; [getPage] rejects a page number out of range. *)
Definition renderPageToCanvas (pdfDoc : list PDFPage) (pageNum : nat) (scale : float)
  : option Image :=
  match pageNum with
  | O => None
  | S i => option_map (fun p => mkImage p scale) (nth_error pdfDoc i)
  end.

(** The [for (let i = 1; i <= pdfDoc.numPages; i++)] loop, [n] pages left. *)
Fixpoint thumbnailLoop (pdfDoc : list PDFPage) (scale : float) (n : nat) (i : nat)
  : option (list Image) :=
  match n with
  | O => Some []
  | S n' =>
      match renderPageToCanvas pdfDoc i scale, thumbnailLoop pdfDoc scale n' (S i) with
      | Some t, Some ts => Some (t :: ts)
      | _, _ => None
      end
  end.

Definition generateThumbnails (arrayBuffer : ArrayBuffer) (scale : float)
  : option (list Image) :=
  match loadPDFDocument arrayBuffer with
  | None => None
  | Some pdfDoc => thumbnailLoop pdfDoc scale (length pdfDoc) 1%nat
  end.

(** The callback of [pageIndices.forEach] in [rotatePages]. *)
Definition rotateOne (degrees : Z) (pages : list PDFPage) (pageIndex : number)
  : list PDFPage :=
  if nge pageIndex 0 && nlt pageIndex (Z.of_nat (length pages)) then
    match pageAt pages pageIndex, pageIndex with
    | Some p, Num z =>
        let currentRotation := p_angle p in
        setPage pages (Z.to_nat z) (setRotation p (currentRotation + degrees))
    | _, _ => pages
    end
  else pages.

Definition rotatePages (arrayBuffer : ArrayBuffer) (pageIndices : list number)
  (degrees : Z) : option ArrayBuffer :=
  match load arrayBuffer with
  | None => None
  | Some pages => Some (save (fold_left (rotateOne degrees) pageIndices pages))
  end.

(** [hexColor.substring(a, b)] for [0 <= a <= b]. *)
Definition substring (s : jsstring) (a b : nat) : jsstring :=
  firstn (b - a) (skipn a s).

Definition channel (hexColor : jsstring) (a b : nat) : float :=
  PrimFloat.div (toFloat (parseInt (substring hexColor a b) 16)) 255%float.

(** The body of the [for (const annotation of annotations)] loop. *)
Definition burnOne (pageHeight : float) (page : PDFPage) (annotation : TextAnnotation)
  : PDFPage :=
  let hexColor := removeFirst (js "#") (ta_color annotation) in
  let r := channel hexColor 0 2 in
  let g := channel hexColor 2 4 in
  let b := channel hexColor 4 6 in
  drawText page
    (mkDrawn (ta_text annotation) (ta_x annotation)
       (PrimFloat.sub (PrimFloat.sub pageHeight (ta_y annotation)) (ta_fontSize annotation))
       (ta_fontSize annotation) (r, g, b)).

(** [page.getSize()] on a missing page throws. *)
Definition addTextToPage (arrayBuffer : ArrayBuffer) (pageIndex : nat)
  (annotations : list TextAnnotation) : option ArrayBuffer :=
  match load arrayBuffer with
  | None => None
  | Some pages =>
      match nth_error pages pageIndex with
      | None => None
      | Some page =>
          let pageHeight := snd (p_size page) in
          Some (save (setPage pages pageIndex
                        (fold_left (burnOne pageHeight) annotations page)))
      end
  end.

(** [for (let i = range.start; i <= range.end; i++) pageIndices.push(i)],
    [n] iterations left. *)
Fixpoint countUp (n : nat) (i : Z) : list number :=
  match n with
  | O => []
  | S n' => Num i :: countUp n' (i + 1)
  end.

(** The loop runs [end - start + 1] times, and not at all when that is not
    positive or a bound is [NaN]. *)
Definition rangeIndices (range : MergeRule) : list number :=
  match start range, end_ range with
  | Num s, Num e => countUp (Z.to_nat (e - s + 1)) s
  | _, _ => []
  end.

(** The [for (const range of ranges)] loop of [splitPDF]. *)
Fixpoint splitLoop (sourcePdf : list PDFPage) (ranges : list MergeRule)
  : option (list ArrayBuffer) :=
  match ranges with
  | [] => Some []
  | range :: rest =>
      match copyPages sourcePdf (rangeIndices range), splitLoop sourcePdf rest with
      | Some copiedPages, Some results => Some (save copiedPages :: results)
      | _, _ => None
      end
  end.

Definition splitPDF (arrayBuffer : ArrayBuffer) (ranges : list MergeRule)
  : option (list ArrayBuffer) :=
  match load arrayBuffer with
  | None => None
  | Some sourcePdf => splitLoop sourcePdf ranges
  end.

(** The [for (const buffer of arrayBuffers)] loop of [mergePDFs]. *)
Fixpoint mergeLoop (mergedPdf : list PDFPage) (arrayBuffers : list ArrayBuffer)
  : option (list PDFPage) :=
  match arrayBuffers with
  | [] => Some mergedPdf
  | buffer :: rest =>
      match load buffer with
      | None => None
      | Some pdf =>
          match copyPages pdf (getPageIndices pdf) with
          | None => None
          | Some copiedPages => mergeLoop (mergedPdf ++ copiedPages) rest
          end
      end
  end.

Definition mergePDFs (arrayBuffers : list ArrayBuffer) : option ArrayBuffer :=
  option_map save (mergeLoop [] arrayBuffers).

Definition extractPages (arrayBuffer : ArrayBuffer) (pageIndices : list number)
  : option ArrayBuffer :=
  match load arrayBuffer with
  | None => None
  | Some sourcePdf =>
      match copyPages sourcePdf pageIndices with
      | None => None
      | Some copiedPages => Some (save ([] ++ copiedPages))
      end
  end.

Definition reorderPages (arrayBuffer : ArrayBuffer) (newOrder : list number)
  : option ArrayBuffer :=
  match load arrayBuffer with
  | None => None
  | Some sourcePdf =>
      match copyPages sourcePdf newOrder with
      | None => None
      | Some copiedPages => Some (save ([] ++ copiedPages))
      end
  end.

Definition cropPage (arrayBuffer : ArrayBuffer) (pageIndex : nat)
  (cropBox : CropBox float) (pageWidth pageHeight : float) : option ArrayBuffer :=
  match load arrayBuffer with
  | None => None
  | Some pages =>
      match nth_error pages pageIndex with
      | None => None
      | Some page =>
          let '(w, h) := p_size page in
          Some (save (setPage pages pageIndex
                        (setCropBox page (toPdfBox w h cropBox pageWidth pageHeight))))
      end
  end.

Definition getPageCount (arrayBuffer : ArrayBuffer) : option nat :=
  option_map (@length PDFPage) (loadPDFDocument arrayBuffer).

(* ================================================================== *)
(** * The document and page model (types/pdf.ts) *)
(* ================================================================== *)

Record PDFPageData : Type := mkPageData {
  pageIndex : nat;
  rotation : Z;
  thumbnail : option Image;
  selected : bool;
  textAnnotations : list TextAnnotation;
  pd_cropBox : option (CropBox float)
}.

Record PDFDocument : Type := mkDocument {
  id : jsstring;
  name : jsstring;
  arrayBuffer : ArrayBuffer;
  pageCount : nat;
  pages : list PDFPageData
}.

Inductive EditorMode : Type := View | Text | Crop.

(** The component state of [App] that the handlers below read or write.
    [selectedPages] is a JavaScript [Set]: its keys in insertion order. *)
Record AppState : Type := mkState {
  documents : list PDFDocument;
  activeDocId : option jsstring;
  activePageIndex : option nat;
  mode : EditorMode;
  selectedPages : list jsstring;
  mergeRule : jsstring;
  currentAnnotations : list TextAnnotation;
  cropBox : option (CropBox float);
  pageSize : float * float
}.

Definition initialState : AppState :=
  mkState [] None None View [] [] [] None (0%float, 0%float).

(** What a handler call came to: it ran to its end, it returned at once, or
    it raised one of the alerts. *)
Inductive AlertMsg : Type :=
| LoadFailed | RotateFailed | CannotDeleteAllPages | DeleteFailed
| MoveFailed | CropFailed | SaveTextFailed | NoValidRule | SplitFailed.

Inductive Outcome : Type :=
| Done : Outcome
| Returned : Outcome
| Alert : AlertMsg -> Outcome.

(** ** Arrays and sets *)

(** [a.map((x, i) => f x i)], the first element having index [i]. *)
Fixpoint mapiFrom {A B : Type} (f : A -> nat -> B) (i : nat) (a : list A) : list B :=
  match a with
  | [] => []
  | x :: rest => f x i :: mapiFrom f (S i) rest
  end.

Definition mapi {A B : Type} (f : A -> nat -> B) (a : list A) : list B :=
  mapiFrom f 0 a.

(** Where [a.splice(start, ...)] begins: a negative [start] counts from the
    end, and the result is clamped to the array. *)
Definition spliceStart {A : Type} (a : list A) (start : Z) : nat :=
  let len := Z.of_nat (length a) in
  Z.to_nat (if start <? 0 then Z.max (len + start) 0 else Z.min start len).

(** [a.splice(start, deleteCount, ...items)]: the array afterwards and the
    removed elements. *)
Definition splice {A : Type} (a : list A) (start : Z) (deleteCount : nat)
  (items : list A) : list A * list A :=
  let k := spliceStart a start in
  (firstn k a ++ items ++ skipn (k + deleteCount) a,
   firstn deleteCount (skipn k a)).

Definition setHas (key : jsstring) (s : list jsstring) : bool :=
  existsb (eqbStr key) s.

Definition setAdd (key : jsstring) (s : list jsstring) : list jsstring :=
  if setHas key s then s else s ++ [key].

Definition setDelete (key : jsstring) (s : list jsstring) : list jsstring :=
  filter (fun k => negb (eqbStr key k)) s.

(** ** pdfUtils.ts, [initializePages] *)

Definition initializePages (pageCount : nat) : list PDFPageData :=
  map (fun i => mkPageData i 0 None false [] None) (seq 0 pageCount).

(* ================================================================== *)
(** * The handlers of App.tsx *)
(* ================================================================== *)

(** [documents.find(d => d.id === activeDocId)] *)
Definition activeDoc (s : AppState) : option PDFDocument :=
  match activeDocId s with
  | None => None
  | Some a => find (fun d => eqbStr (id d) a) (documents s)
  end.

(** [`${docId}-${pageIndex}`] *)
Definition pageKey (docId : jsstring) (pageIndex : nat) : jsstring :=
  docId ++ [hyphen] ++ natToString pageIndex.

Definition togglePageSelection (s : AppState) (docId : jsstring) (pageIndex : nat)
  : AppState :=
  let key := pageKey docId pageIndex in
  let newSet := if setHas key (selectedPages s)
                then setDelete key (selectedPages s)
                else setAdd key (selectedPages s) in
  mkState (documents s) (activeDocId s) (activePageIndex s) (mode s) newSet
    (mergeRule s) (currentAnnotations s) (cropBox s) (pageSize s).

Definition selectAllPages (s : AppState) : AppState :=
  match activeDoc s with
  | None => s
  | Some doc =>
      let newSet := fold_left (fun set key => setAdd key set)
                      (mapi (fun _ i => pageKey (id doc) i) (pages doc)) [] in
      mkState (documents s) (activeDocId s) (activePageIndex s) (mode s) newSet
        (mergeRule s) (currentAnnotations s) (cropBox s) (pageSize s)
  end.

Definition clearSelection (s : AppState) : AppState :=
  mkState (documents s) (activeDocId s) (activePageIndex s) (mode s) []
    (mergeRule s) (currentAnnotations s) (cropBox s) (pageSize s).

(** The selection filter, which [handleRotate], [handleExtract] and
    [handleDeletePages] each spell out:
    [Array.from(selectedPages).filter(key => key.startsWith(activeDoc.id))
       .map(key => parseInt(key.split('-')[1], 10))]. *)
Definition selectedIndices (selectedPages : list jsstring) (doc : PDFDocument)
  : list number :=
  map (fun key => parseInt (toStringOr (nth_error (split hyphen key) 1)) 10)
    (filter (fun key => startsWith key (id doc)) selectedPages).

(** [setDocuments(prev => prev.map(doc => doc.id !== activeDoc.id ? doc : f doc))] *)
Definition setDocuments (s : AppState) (docs : list PDFDocument) : AppState :=
  mkState docs (activeDocId s) (activePageIndex s) (mode s) (selectedPages s)
    (mergeRule s) (currentAnnotations s) (cropBox s) (pageSize s).

Definition updateActive (s : AppState) (active : PDFDocument)
  (f : PDFDocument -> PDFDocument) : AppState :=
  setDocuments s
    (map (fun doc => if negb (eqbStr (id doc) (id active)) then doc else f doc)
       (documents s)).

(** [0.3], as the double nearest to it. *)
Definition thumbnailScale : float := 0x1.3333333333333p-2%float.

(** [pages.forEach((page, i) => { page.thumbnail = thumbnails[i]; })] *)
Definition withThumbnails (pages : list PDFPageData) (thumbnails : list Image)
  : list PDFPageData :=
  mapi (fun page i =>
          mkPageData (pageIndex page) (rotation page) (nth_error thumbnails i)
            (selected page) (textAnnotations page) (pd_cropBox page)) pages.

(** An uploaded file: its MIME type, its name and its bytes. *)
Record File : Type := mkFile {
  f_type : jsstring;
  f_name : jsstring;
  f_bytes : ArrayBuffer
}.

(** The [for (const file of Array.from(files))] loop of [handleFileUpload].
    [randomUUID k] is what the [k]-th call of [crypto.randomUUID()] returns. *)
Fixpoint uploadLoop (randomUUID : nat -> jsstring) (k : nat) (files : list File)
  (newDocs : list PDFDocument) : option (list PDFDocument) :=
  match files with
  | [] => Some newDocs
  | file :: rest =>
      if negb (eqbStr (f_type file) (js "application/pdf"))
      then uploadLoop randomUUID k rest newDocs
      else
        let arrayBuffer := f_bytes file in
        match getPageCount arrayBuffer, generateThumbnails arrayBuffer thumbnailScale with
        | Some pageCount, Some thumbnails =>
            let pages := withThumbnails (initializePages pageCount) thumbnails in
            uploadLoop randomUUID (S k) rest
              (newDocs ++ [mkDocument (randomUUID k)
                             (removeFirst (js ".pdf") (f_name file))
                             arrayBuffer pageCount pages])
        | _, _ => None
        end
  end.

(** [!activeDocId] *)
Definition noActiveDoc (s : AppState) : bool :=
  match activeDocId s with
  | None => true
  | Some a => negb (truthy a)
  end.

Definition handleFileUpload (s : AppState) (randomUUID : nat -> jsstring)
  (files : list File) : AppState * Outcome :=
  match files with
  | [] => (s, Returned)
  | _ =>
      match uploadLoop randomUUID 0 files [] with
      | None => (s, Alert LoadFailed)
      | Some newDocs =>
          let active :=
            match newDocs with
            | first :: _ => if noActiveDoc s then Some (id first) else activeDocId s
            | [] => activeDocId s
            end in
          (mkState (documents s ++ newDocs) active (activePageIndex s) (mode s)
             (selectedPages s) (mergeRule s) (currentAnnotations s) (cropBox s)
             (pageSize s), Done)
      end
  end.

(** The [try] block of [handleRotate]. *)
Definition handleRotate_try (s : AppState) (active : PDFDocument) (degrees : Z)
  : AppState * Outcome :=
  let pageIndices := selectedIndices (selectedPages s) active in
  match rotatePages (arrayBuffer active) pageIndices degrees with
  | None => (s, Alert RotateFailed)
  | Some newBuffer =>
      match generateThumbnails newBuffer thumbnailScale with
      | None => (s, Alert RotateFailed)
      | Some thumbnails =>
          (updateActive s active (fun doc =>
             mkDocument (id doc) (name doc) newBuffer (pageCount doc)
               (mapi (fun page i =>
                  mkPageData (pageIndex page)
                    (if includesNum pageIndices (Num (Z.of_nat i))
                     then rotation page + degrees else rotation page)
                    (nth_error thumbnails i) (selected page)
                    (textAnnotations page) (pd_cropBox page))
                  (pages doc))), Done)
      end
  end.

Definition handleRotate (s : AppState) (degrees : Z) : AppState * Outcome :=
  match activeDoc s, selectedPages s with
  | None, _ | _, [] => (s, Returned)
  | Some active, _ => handleRotate_try s active degrees
  end.

(** [activeDoc.pages.map((_, i) => i).filter(i => !pageIndicesToDelete.includes(i))] *)
Definition remainingIndices (doc : PDFDocument) (pageIndicesToDelete : list number)
  : list nat :=
  filter (fun i => negb (includesNum pageIndicesToDelete (Num (Z.of_nat i))))
    (mapi (fun _ i => i) (pages doc)).

Definition asIndices (l : list nat) : list number :=
  map (fun i => Num (Z.of_nat i)) l.

(** [handleDeletePages] from its second statement on: the selected
    indices, the check that something remains, and the [try] block. *)
Definition handleDeletePages_body (s : AppState) (active : PDFDocument)
  : AppState * Outcome :=
  let pageIndicesToDelete := selectedIndices (selectedPages s) active in
  if Nat.eqb (length pageIndicesToDelete) (pageCount active)
  then (s, Alert CannotDeleteAllPages)
  else
    let remaining := remainingIndices active pageIndicesToDelete in
    match extractPages (arrayBuffer active) (asIndices remaining) with
    | None => (s, Alert DeleteFailed)
    | Some newBuffer =>
        match generateThumbnails newBuffer thumbnailScale with
        | None => (s, Alert DeleteFailed)
        | Some thumbnails =>
            let newPages :=
              withThumbnails (initializePages (length remaining)) thumbnails in
            (clearSelection
               (updateActive s active (fun doc =>
                  mkDocument (id doc) (name doc) newBuffer
                    (length remaining) newPages)), Done)
        end
    end.

Definition handleDeletePages (s : AppState) : AppState * Outcome :=
  match activeDoc s, selectedPages s with
  | None, _ | _, [] => (s, Returned)
  | Some active, _ => handleDeletePages_body s active
  end.

(** [undefined] as an array index selects no page, as [NaN] does. *)
Definition indexOr (x : option number) : number :=
  match x with Some n => n | None => NaN end.

(** [newOrder] of [handleMovePage]: take the element at [fromIndex] out and
    put it back at [toIndex]. *)
Definition moveOrder (n : nat) (fromIndex toIndex : Z) : list number :=
  let newOrder := asIndices (seq 0 n) in
  let '(newOrder1, removedList) := splice newOrder fromIndex 1 [] in
  let removed := indexOr (nth_error removedList 0) in
  fst (splice newOrder1 toIndex 0 [removed]).

Definition handleMovePage (s : AppState) (fromIndex toIndex : Z)
  : AppState * Outcome :=
  match activeDoc s with
  | None => (s, Returned)
  | Some active =>
      if fromIndex =? toIndex then (s, Returned)
      else
        let newOrder := moveOrder (length (pages active)) fromIndex toIndex in
        match reorderPages (arrayBuffer active) newOrder with
        | None => (s, Alert MoveFailed)
        | Some newBuffer =>
            match generateThumbnails newBuffer thumbnailScale with
            | None => (s, Alert MoveFailed)
            | Some thumbnails =>
                let newPages :=
                  withThumbnails (initializePages (pageCount active)) thumbnails in
                (updateActive s active (fun doc =>
                   mkDocument (id doc) (name doc) newBuffer (pageCount doc) newPages),
                 Done)
            end
        end
  end.

(** The page array of [applyCrop] and [saveAnnotations]: fresh thumbnails,
    and [f] on each page. *)
Definition refreshed (f : PDFPageData -> nat -> list TextAnnotation)
  (thumbnails : list Image) (pages : list PDFPageData) : list PDFPageData :=
  mapi (fun page i =>
          mkPageData (pageIndex page) (rotation page) (nth_error thumbnails i)
            (selected page) (f page i) (pd_cropBox page)) pages.

(** After its [setDocuments], [applyCrop] reloads the preview and clears the
    crop rectangle; a failure there is caught after the documents changed. *)
Definition applyCrop (s : AppState) : AppState * Outcome :=
  match activeDoc s, activePageIndex s, cropBox s with
  | Some active, Some pageIndex, Some box =>
      match cropPage (arrayBuffer active) pageIndex box
              (fst (pageSize s)) (snd (pageSize s)) with
      | None => (s, Alert CropFailed)
      | Some newBuffer =>
          match generateThumbnails newBuffer thumbnailScale with
          | None => (s, Alert CropFailed)
          | Some thumbnails =>
              let s1 := updateActive s active (fun doc =>
                 mkDocument (id doc) (name doc) newBuffer (pageCount doc)
                   (refreshed (fun page _ => textAnnotations page)
                      thumbnails (pages doc))) in
              match loadPDFDocument newBuffer with
              | None => (s1, Alert CropFailed)
              | Some pdfDoc =>
                  match renderPageToCanvas pdfDoc (pageIndex + 1) 1.5%float with
                  | None => (s1, Alert CropFailed)
                  | Some _ =>
                      (mkState (documents s1) (activeDocId s1) (activePageIndex s1)
                         (mode s1) (selectedPages s1) (mergeRule s1)
                         (currentAnnotations s1) None (pageSize s1), Done)
                  end
              end
          end
      end
  | _, _, _ => (s, Returned)
  end.

Definition saveAnnotations (s : AppState) : AppState * Outcome :=
  match activeDoc s, activePageIndex s, currentAnnotations s with
  | Some active, Some pageIndex, _ :: _ =>
      match addTextToPage (arrayBuffer active) pageIndex (currentAnnotations s) with
      | None => (s, Alert SaveTextFailed)
      | Some newBuffer =>
          match generateThumbnails newBuffer thumbnailScale with
          | None => (s, Alert SaveTextFailed)
          | Some thumbnails =>
              let s1 := updateActive s active (fun doc =>
                 mkDocument (id doc) (name doc) newBuffer (pageCount doc)
                   (refreshed (fun page i =>
                       if Nat.eqb i pageIndex then [] else textAnnotations page)
                      thumbnails (pages doc))) in
              match loadPDFDocument newBuffer with
              | None => (s1, Alert SaveTextFailed)
              | Some pdfDoc =>
                  match renderPageToCanvas pdfDoc (pageIndex + 1) 1.5%float with
                  | None => (s1, Alert SaveTextFailed)
                  | Some _ =>
                      (mkState (documents s1) (activeDocId s1) (activePageIndex s1)
                         (mode s1) (selectedPages s1) (mergeRule s1)
                         [] (cropBox s1) (pageSize s1), Done)
                  end
              end
          end
      end
  | _, _, _ => (s, Returned)
  end.

Definition deleteDocument (s : AppState) (docId : jsstring) : AppState :=
  let docs := filter (fun d => negb (eqbStr (id d) docId)) (documents s) in
  let active :=
    match activeDocId s with
    | Some a =>
        if eqbStr a docId
        then match find (fun d => negb (eqbStr (id d) docId)) (documents s) with
             | Some d => if truthy (id d) then Some (id d) else None
             | None => None
             end
        else Some a
    | None => None
    end in
  mkState docs active (activePageIndex s) (mode s)
    (filter (fun key => negb (startsWith key docId)) (selectedPages s))
    (mergeRule s) (currentAnnotations s) (cropBox s) (pageSize s).

(** The rules [handleSplit] splits by: the typed rule, or one rule per page
    when nothing is typed. *)
Definition splitRules (mergeRule : jsstring) (doc : PDFDocument) : list MergeRule :=
  if truthy (trim mergeRule)
  then parseMergeRules mergeRule (Z.of_nat (pageCount doc))
  else mapi (fun _ i => mkRule (Num (Z.of_nat i)) (Num (Z.of_nat i))) (pages doc).


(* ================================================================== *)
(** * Specification vocabulary *)
(* ================================================================== *)

(** The invariant of a [MergeRule]: [0 <= start <= end < maxPage]. *)
Definition inBounds (maxPage : Z) (r : MergeRule) : Prop :=
  match start r, end_ r with
  | Num s, Num e => 0 <= s /\ s <= e /\ e < maxPage
  | _, _ => False
  end.

(** How the parser reads a token: a single page [a] (then [b = a]), or a
    range whose first two hyphen-separated segments parse as [a] and [b]
    (1-based). *)
Definition reads (part : jsstring) (a b : Z) : Prop :=
  (includes hyphen part = false /\ parseInt part 10 = Num a /\ b = a)
  \/ (includes hyphen part = true
      /\ exists seg0 seg1 more,
           map trim (split hyphen part) = seg0 :: seg1 :: more
           /\ parseInt seg0 10 = Num a /\ parseInt seg1 10 = Num b).

(** A decimal digit. *)
Definition isDigit (c : N) : bool := (48 <=? c)%N && (c <=? 57)%N.

(** The rules cut [from, n) into consecutive non-empty ranges. *)
Fixpoint tiles (from n : Z) (rules : list MergeRule) : bool :=
  match rules with
  | [] => from =? n
  | r :: rest =>
      match start r, end_ r with
      | Num s, Num e => (s =? from) && (s <=? e) && (e <? n) && tiles (e + 1) n rest
      | _, _ => false
      end
  end.

(** The number of pages a buffer holds, when it is a PDF. *)
Definition pagesIn (b : ArrayBuffer) : option nat := getPageCount b.

(** How often the integer [j] occurs in an index list. *)
Definition occurrences (j : nat) (indices : list number) : Z :=
  Z.of_nat (length (filter (sameValueZero (Num (Z.of_nat j))) indices)).

(** An index that [rotatePages] acts on. *)
Definition inRange (n : nat) (i : number) : bool :=
  nge i 0 && nlt i (Z.of_nat n).

(** A document whose page model matches its bytes: the buffer is a PDF of
    [pageCount] pages, the page array has that length, its entries are
    numbered by position, and each thumbnail is the image of the page of
    the current buffer at that position. *)
Definition synced (d : PDFDocument) : Prop :=
  exists ps,
    load (arrayBuffer d) = Some ps
    /\ length ps = pageCount d
    /\ length (pages d) = pageCount d
    /\ map pageIndex (pages d) = seq 0 (pageCount d)
    /\ map thumbnail (pages d) = map (fun p => Some (mkImage p thumbnailScale)) ps.

(** The states the editor keeps consistent: documents have distinct ids and
    each is [synced]. *)
Definition consistent (s : AppState) : Prop :=
  NoDup (map id (documents s)) /\ Forall synced (documents s).

(** One user action.  [crypto.randomUUID] is taken to return ids that no
    open document has; [step_ui] stands for every action that leaves the
    documents alone (selection, editor, mode, typing, dragging). *)
Inductive step : AppState -> AppState -> Prop :=
| step_upload : forall s randomUUID files,
    NoDup (map id (documents (fst (handleFileUpload s randomUUID files)))) ->
    step s (fst (handleFileUpload s randomUUID files))
| step_rotate : forall s degrees, step s (fst (handleRotate s degrees))
| step_delete : forall s, step s (fst (handleDeletePages s))
| step_move : forall s fromIndex toIndex,
    step s (fst (handleMovePage s fromIndex toIndex))
| step_crop : forall s, step s (fst (applyCrop s))
| step_annotate : forall s, step s (fst (saveAnnotations s))
| step_close : forall s docId, step s (deleteDocument s docId)
| step_ui : forall s s', documents s' = documents s -> step s s'.

Inductive reachable : AppState -> Prop :=
| reach_init : reachable initialState
| reach_step : forall s s', reachable s -> step s s' -> reachable s'.

(** The shape of what [crypto.randomUUID()] returns: five groups of
    lower-case hexadecimal digits, 8-4-4-4-12. *)
Definition isHexDigit (c : N) : bool :=
  ((48 <=? c)%N && (c <=? 57)%N) || ((97 <=? c)%N && (c <=? 102)%N).

Definition isUUID (s : jsstring) : bool :=
  match split hyphen s with
  | [a; b; c; d; e] =>
      Nat.eqb (length a) 8 && Nat.eqb (length b) 4 && Nat.eqb (length c) 4
      && Nat.eqb (length d) 4 && Nat.eqb (length e) 12
      && forallb (forallb isHexDigit) [a; b; c; d; e]
  | _ => false
  end.

(** A page with content [c], unrotated, of size [w] by [h] points. *)
Definition blankPage (c : N) (w h : float) : PDFPage := mkPage c 0 (w, h) None [].

(** A ten-page Letter document, uploaded as [report.pdf] and given the id
    [3b241101-e2bb-4255-8caf-4136c566a962], with pages 3 and 5 ticked. *)
Definition tenPages : list PDFPage :=
  map (fun i => blankPage (N.of_nat i) 612%float 792%float) (seq 0 10).

Definition sampleUUID : jsstring := js "3b241101-e2bb-4255-8caf-4136c566a962".

Definition uploadedTen : AppState :=
  fst (handleFileUpload initialState (fun _ => sampleUUID)
         [mkFile (js "application/pdf") (js "report.pdf") (PdfBytes tenPages)]).

Definition tickedTen : AppState :=
  togglePageSelection (togglePageSelection uploadedTen sampleUUID 2) sampleUUID 4.


(** What follows the digits of a numeral: nothing, or a unit that is not a
    decimal digit. *)
Definition stops (r : jsstring) : Prop :=
  match r with [] => True | c :: _ => isDigit c = false end.

(** [splitPDF] and then [mergePDFs] on its buffers, in their order. *)
Definition splitThenMerge (arrayBuffer : ArrayBuffer) (ranges : list MergeRule)
  : option ArrayBuffer :=
  match splitPDF arrayBuffer ranges with
  | Some buffers => mergePDFs buffers
  | None => None
  end.


(** The number of pages a rule selects: [end - start + 1], or none. *)
Definition ruleSize (r : MergeRule) : nat := length (rangeIndices r).


(** A one-page Letter document. *)
Definition letterPage : list PDFPage := [blankPage 0 612%float 792%float].


(** The scenario's outcomes: the ticked pages rotated by 90 degrees, the
    ticked pages deleted, and every page ticked. *)
Definition rotatedTen : AppState := fst (handleRotate tickedTen 90).

Definition deletedTen : AppState := fst (handleDeletePages tickedTen).

Definition allTickedTen : AppState := selectAllPages uploadedTen.

(** What a state shows of its documents: per document, the page count, the
    rotation recorded for each page, and the angle of each page in the
    bytes. *)
Definition pageAngles (b : ArrayBuffer) : option (list Z) :=
  option_map (map p_angle) (load b).

Definition summary (s : AppState) : list (nat * list Z * option (list Z)) :=
  map (fun d => (pageCount d, map rotation (pages d), pageAngles (arrayBuffer d)))
    (documents s).

(** The content of each page in the bytes, in page order. *)
Definition pageContents (b : ArrayBuffer) : option (list N) :=
  option_map (map p_content) (load b).

(** The pages of [ps] whose position is not in [idxs], in their order. *)
Definition dropAt (idxs : list nat) (ps : list PDFPage) : list PDFPage :=
  map snd
    (filter (fun ip => negb (existsb (Nat.eqb (fst ip)) idxs))
       (combine (seq 0 (length ps)) ps)).

(** The same ten pages under the id [doc7], pages 3 and 5 ticked. *)
Definition plainTen : AppState :=
  togglePageSelection
    (togglePageSelection
       (fst (handleFileUpload initialState (fun _ => js "doc7")
               [mkFile (js "application/pdf") (js "report.pdf") (PdfBytes tenPages)]))
       (js "doc7") 2)
    (js "doc7") 4.

(* ================================================================== *)
(** * More of pdfUtils.ts *)
(* ================================================================== *)

(** [rotatePage]: the one-page sibling of [rotatePages]. *)
Definition rotatePage (arrayBuffer : ArrayBuffer) (pageIndex : number) (degrees : Z)
  : option ArrayBuffer :=
  match load arrayBuffer with
  | None => None
  | Some pages =>
      Some (save
              (if nge pageIndex 0 && nlt pageIndex (Z.of_nat (length pages)) then
                 match pageAt pages pageIndex, pageIndex with
                 | Some p, Num z =>
                     let currentRotation := p_angle p in
                     setPage pages (Z.to_nat z)
                       (setRotation p (currentRotation + degrees))
                 | _, _ => pages
                 end
               else pages))
  end.

(** One awaited call after another: the second runs on the first's result,
    and an exception of either ends the sequence. *)
Definition andThen {A B : Type} (x : option A) (f : A -> option B) : option B :=
  match x with Some a => f a | None => None end.

(** The text a user types for a rule: the 1-based page for a one-page rule,
    and [first-last] otherwise. *)
Definition ruleText (r : MergeRule) : jsstring :=
  match start r, end_ r with
  | Num s, Num e =>
      if s =? e then natToString (Z.to_nat (s + 1))
      else natToString (Z.to_nat (s + 1)) ++ [hyphen] ++ natToString (Z.to_nat (e + 1))
  | _, _ => []
  end.

(** The texts of several rules, separated by commas. *)
Fixpoint rulesText (rules : list MergeRule) : jsstring :=
  match rules with
  | [] => []
  | [r] => ruleText r
  | r :: rest => ruleText r ++ [comma] ++ rulesText rest
  end.

(** The pages a rule names in a document: from [start] to [end]. *)
Definition pagesOfRule (ps : list PDFPage) (r : MergeRule) : list PDFPage :=
  match start r, end_ r with
  | Num s, Num e => firstn (Z.to_nat (e - s + 1)) (skipn (Z.to_nat s) ps)
  | _, _ => []
  end.

(** The value of a hexadecimal digit, and 0 for any other unit. *)
Definition hexValue (c : N) : Z :=
  match digitValue c with Some v => v | None => 0 end.

Definition isHex (c : N) : bool :=
  match digitValue c with Some v => v <? 16 | None => false end.


(* ================================================================== *)
(** * More of App.tsx *)
(* ================================================================== *)

(** [handleMergeAll], up to the download: the merged bytes it would save,
    or the alert it raises. *)
Inductive MergeOutcome : Type :=
| Merged : ArrayBuffer -> MergeOutcome
| NeedTwoDocuments : MergeOutcome
| MergeFailed : MergeOutcome.

Definition handleMergeAll (s : AppState) : MergeOutcome :=
  if (length (documents s) <? 2)%nat then NeedTwoDocuments
  else
    let buffers := map arrayBuffer (documents s) in
    match mergePDFs buffers with
    | None => MergeFailed
    | Some mergedBuffer => Merged mergedBuffer
    end.

(** [onClick={() => setActiveDocId(doc.id)}] on a document tab. *)
Definition selectDocument (s : AppState) (docId : jsstring) : AppState :=
  mkState (documents s) (Some docId) (activePageIndex s) (mode s)
    (selectedPages s) (mergeRule s) (currentAnnotations s) (cropBox s) (pageSize s).

(** [file.type !== 'application/pdf'] is false. *)
Definition isPdfFile (file : File) : bool :=
  eqbStr (f_type file) (js "application/pdf").

(** A list without its element at [k], and with [a] put in at [k]. *)
Definition removeAt {A : Type} (k : nat) (l : list A) : list A :=
  firstn k l ++ skipn (S k) l.

Definition insertAt {A : Type} (k : nat) (a : A) (l : list A) : list A :=
  firstn k l ++ a :: skipn k l.

(** A list with its element at [from] taken out and put back at [to]. *)
Definition moveList {A : Type} (l : list A) (from to : nat) : list A :=
  match nth_error l from with
  | Some a => insertAt to a (removeAt from l)
  | None => l
  end.

(** The state with another set of ticked pages. *)
Definition withSelection (s : AppState) (keys : list jsstring) : AppState :=
  mkState (documents s) (activeDocId s) (activePageIndex s) (mode s) keys
    (mergeRule s) (currentAnnotations s) (cropBox s) (pageSize s).

(** The bytes of the active document. *)
Definition activeBytes (s : AppState) : option ArrayBuffer :=
  option_map arrayBuffer (activeDoc s).

(** The ten-page document open in the page editor on its third page, with
    one text typed and a crop rectangle drawn on the 918 by 1188 preview. *)
Definition draftNote : TextAnnotation :=
  mkAnnotation (js "a1") (js "Draft") 100%float 200%float 16%float
    (js "Helvetica") (js "#ff0000") 0%float 50%float 20%float.

Definition editingTen : AppState :=
  mkState (documents uploadedTen) (activeDocId uploadedTen) (Some 2%nat)
    (mode uploadedTen) [] [] [draftNote]
    (Some (mkBox 10%float 20%float 300%float 400%float))
    (918%float, 1188%float).

(** The document [uploadedTen] holds. *)
Definition reportTen : PDFDocument :=
  mkDocument sampleUUID (js "report") (PdfBytes tenPages) 10
    (withThumbnails (initializePages 10)
       (map (fun p => mkImage p thumbnailScale) tenPages)).

(** The tab bar is sound when the active id is none, or the id of an open
    document. *)
Definition activeOpen (s : AppState) : Prop :=
  match activeDocId s with
  | None => True
  | Some a => In a (map id (documents s))
  end.

(** One action of the user on the editor; a tab can be clicked only for a
    document that is open. *)
Inductive action : AppState -> AppState -> Prop :=
| act_upload : forall s randomUUID files,
    action s (fst (handleFileUpload s randomUUID files))
| act_tab : forall s doc, In doc (documents s) -> action s (selectDocument s (id doc))
| act_close : forall s docId, action s (deleteDocument s docId)
| act_tick : forall s docId pageIndex, action s (togglePageSelection s docId pageIndex)
| act_all : forall s, action s (selectAllPages s)
| act_none : forall s, action s (clearSelection s)
| act_rotate : forall s degrees, action s (fst (handleRotate s degrees))
| act_delete : forall s, action s (fst (handleDeletePages s))
| act_move : forall s fromIndex toIndex, action s (fst (handleMovePage s fromIndex toIndex))
| act_crop : forall s, action s (fst (applyCrop s))
| act_annotate : forall s, action s (fst (saveAnnotations s)).

(** The states of a session that starts with no document open. *)
Inductive session : AppState -> Prop :=
| session_start : session initialState
| session_next : forall s s', session s -> action s s' -> session s'.

(** The tabs of a state: the ids of the open documents, and the active one. *)
Definition tabs (s : AppState) : list jsstring * option jsstring :=
  (map id (documents s), activeDocId s).

(** Two documents open: the ten-page report and a one-page letter. *)
Definition twoOpen : AppState :=
  fst (handleFileUpload initialState
         (fun k => if Nat.eqb k 0 then sampleUUID
                   else js "9f1c2d3e-0a1b-4c5d-8e9f-001122334455")
         [mkFile (js "application/pdf") (js "report.pdf") (PdfBytes tenPages);
          mkFile (js "text/plain") (js "notes.txt") NotPdf;
          mkFile (js "application/pdf") (js "letter.pdf") (PdfBytes letterPage)]).

(* ================================================================== *)
(** * Facts about the string primitives *)
(* ================================================================== *)

Unset Implicit Arguments.

Lemma split_not_nil : forall sep s, split sep s <> [].
Proof.
  intros sep s. destruct s as [|c s']; simpl.
  - discriminate.
  - destruct (N.eqb c sep); [discriminate|].
    destruct (split sep s'); discriminate.
Qed.

Lemma split_app : forall sep a b,
  split sep (a ++ sep :: b) = split sep a ++ split sep b.
Proof.
  intros sep a b. induction a as [|c a' IH]; simpl.
  - rewrite N.eqb_refl. reflexivity.
  - destruct (N.eqb c sep).
    + rewrite IH. reflexivity.
    + rewrite IH. destruct (split sep a') as [|h t] eqn:E.
      * exfalso. exact (split_not_nil _ _ E).
      * reflexivity.
Qed.

Lemma split_without : forall sep s, includes sep s = false -> split sep s = [s].
Proof.
  intros sep s. induction s as [|c s' IH]; simpl; intros H.
  - reflexivity.
  - apply orb_false_iff in H. destruct H as [Hc Hs].
    rewrite N.eqb_sym, Hc, (IH Hs). reflexivity.
Qed.

Lemma includes_app : forall c a b, includes c (a ++ b) = includes c a || includes c b.
Proof. intros. unfold includes. apply existsb_app. Qed.

Lemma trimStart_mid : forall a c r,
  isWhiteSpace c = false -> trimStart (a ++ c :: r) = trimStart a ++ c :: r.
Proof.
  intros a c r Hc. induction a as [|x a' IH]; simpl.
  - rewrite Hc. reflexivity.
  - destruct (isWhiteSpace x); [exact IH | reflexivity].
Qed.

Lemma trimEnd_cons : forall c r,
  isWhiteSpace c = false -> trimEnd (c :: r) = c :: trimEnd r.
Proof. intros c r Hc. simpl. rewrite Hc. destruct (trimEnd r); reflexivity. Qed.

Lemma trimEnd_mid : forall a c r,
  isWhiteSpace c = false -> trimEnd (a ++ c :: r) = a ++ c :: trimEnd r.
Proof.
  intros a c r Hc. induction a as [|x a' IH].
  - apply trimEnd_cons, Hc.
  - change ((x :: a') ++ c :: r) with (x :: (a' ++ c :: r)).
    cbn [trimEnd]. rewrite IH. destruct a'; reflexivity.
Qed.

Lemma trimEnd_head : forall c r,
  trimEnd (c :: r) = [] \/ exists t, trimEnd (c :: r) = c :: t.
Proof.
  intros c r. simpl. destruct (trimEnd r) as [|y t].
  - destruct (isWhiteSpace c); [left | right; exists []]; reflexivity.
  - right. exists (y :: t). reflexivity.
Qed.

Lemma trimEnd_idem : forall s, trimEnd (trimEnd s) = trimEnd s.
Proof.
  induction s as [|c r IH]; [reflexivity|].
  cbn [trimEnd]. destruct (trimEnd r) as [|y t] eqn:E.
  - destruct (isWhiteSpace c) eqn:Hc; [reflexivity|].
    simpl. rewrite Hc. reflexivity.
  - cbn [trimEnd]. cbn [trimEnd] in IH. rewrite IH. reflexivity.
Qed.

Lemma trimStart_trimEnd : forall s, trimStart (trimEnd s) = trimEnd (trimStart s).
Proof.
  induction s as [|c r IH]; [reflexivity|].
  destruct (isWhiteSpace c) eqn:Hc.
  - cbn [trimStart]. rewrite Hc, <- IH.
    cbn [trimEnd]. rewrite Hc.
    destruct (trimEnd r) as [|y t]; [reflexivity|].
    cbn [trimStart]. rewrite Hc. reflexivity.
  - cbn [trimStart]. rewrite Hc, trimEnd_cons by exact Hc.
    cbn [trimStart]. rewrite Hc. reflexivity.
Qed.

Lemma trim_trimEnd : forall s, trim (trimEnd s) = trim s.
Proof.
  intros s. unfold trim. rewrite trimStart_trimEnd, trimEnd_idem. reflexivity.
Qed.

Lemma includes_trimStart : forall c s,
  includes c s = false -> includes c (trimStart s) = false.
Proof.
  intros c s. induction s as [|x r IH]; simpl; intros H; [reflexivity|].
  apply orb_false_iff in H. destruct H as [Hx Hr].
  destruct (isWhiteSpace x); [exact (IH Hr)|].
  simpl. rewrite Hx, Hr. reflexivity.
Qed.

Lemma includes_trimEnd : forall c s,
  includes c s = false -> includes c (trimEnd s) = false.
Proof.
  intros c s. induction s as [|x r IH]; intros H; [reflexivity|].
  simpl in H. apply orb_false_iff in H. destruct H as [Hx Hr].
  specialize (IH Hr). cbn [trimEnd].
  destruct (trimEnd r) as [|y t].
  - destruct (isWhiteSpace x); simpl; [reflexivity|]. rewrite Hx. reflexivity.
  - change (includes c (x :: y :: t)) with (N.eqb c x || includes c (y :: t)).
    rewrite Hx, IH. reflexivity.
Qed.

Lemma digit_not_space : forall c, isDigit c = true -> isWhiteSpace c = false.
Proof.
  intros c H. unfold isDigit in H. apply andb_true_iff in H.
  destruct H as [H1 H2]. apply N.leb_le in H1, H2.
  unfold isWhiteSpace, whiteSpaceUnits. cbn [existsb].
  repeat match goal with
         | |- context [N.eqb c ?k] =>
             let E := fresh in destruct (N.eqb_spec c k) as [E|E]; [lia|]
         end.
  reflexivity.
Qed.

Lemma digit_value : forall c,
  isDigit c = true -> digitValue c = Some (Z.of_N c - 48) /\ 0 <= Z.of_N c - 48 < 10.
Proof.
  intros c H. unfold digitValue. unfold isDigit in H. rewrite H.
  apply andb_true_iff in H. destruct H as [H1 H2]. apply N.leb_le in H1, H2.
  split; [reflexivity | lia].
Qed.

Lemma not_digit_value : forall c d,
  isDigit c = false -> digitValue c = Some d -> 10 <= d.
Proof.
  intros c d H. unfold digitValue. unfold isDigit in H. rewrite H.
  destruct ((97 <=? c)%N && (c <=? 122)%N) eqn:E1.
  - apply andb_true_iff in E1. destruct E1 as [A B]. apply N.leb_le in A, B.
    intros E; inversion E; lia.
  - destruct ((65 <=? c)%N && (c <=? 90)%N) eqn:E2; [|discriminate].
    apply andb_true_iff in E2. destruct E2 as [A B]. apply N.leb_le in A, B.
    intros E; inversion E; lia.
Qed.

(** Digits are read one after the other. *)
Lemma parseDigits_app : forall ds r acc,
  forallb isDigit ds = true ->
  parseDigits 10 acc (ds ++ r) = parseDigits 10 (parseDigits 10 acc ds) r.
Proof.
  induction ds as [|c ds' IH]; intros r acc H; [reflexivity|].
  simpl in H. apply andb_true_iff in H. destruct H as [Hc Hd].
  destruct (digit_value c Hc) as [E R].
  simpl. rewrite E.
  replace (Z.of_N c - 48 <? 10) with true by (symmetry; apply Z.ltb_lt; lia).
  apply IH, Hd.
Qed.

(** Reading stops at the first unit that is not a decimal digit. *)
Lemma parseDigits_stop : forall c r acc,
  isDigit c = false -> parseDigits 10 acc (c :: r) = acc.
Proof.
  intros c r acc H. simpl. destruct (digitValue c) as [d|] eqn:E; [|reflexivity].
  pose proof (not_digit_value c d H E) as Hd.
  replace (d <? 10) with false by (symmetry; apply Z.ltb_ge; lia).
  reflexivity.
Qed.

Lemma digit_is_not : forall c d, isDigit d = true -> isDigit c = false -> N.eqb c d = false.
Proof.
  intros c d Hd Hc. destruct (N.eqb_spec c d) as [E|E]; [|reflexivity].
  subst. rewrite Hd in Hc. discriminate.
Qed.

Lemma digits_exclude : forall c ds,
  isDigit c = false -> forallb isDigit ds = true -> includes c ds = false.
Proof.
  intros c ds Hc. induction ds as [|d r IH]; simpl; intros H; [reflexivity|].
  apply andb_true_iff in H. destruct H as [Hd Hr].
  rewrite (digit_is_not c d Hd Hc), (IH Hr). reflexivity.
Qed.

Lemma trimEnd_digits : forall ds r,
  forallb isDigit ds = true -> trimEnd (ds ++ r) = ds ++ trimEnd r.
Proof.
  induction ds as [|d ds' IH]; intros r H; [reflexivity|].
  simpl in H. apply andb_true_iff in H. destruct H as [Hd Hr].
  change ((d :: ds') ++ r) with (d :: (ds' ++ r)).
  rewrite trimEnd_cons by (apply digit_not_space, Hd).
  rewrite IH by exact Hr. reflexivity.
Qed.

Lemma stops_trimEnd : forall r, stops r -> stops (trimEnd r).
Proof.
  intros [|c r] H; [exact I|].
  destruct (trimEnd_head c r) as [E|[t E]]; rewrite E; [exact I | exact H].
Qed.

(** [parseInt] uses the integer prefix and ignores what follows it. *)
Lemma parseInt_prefix : forall ds r,
  ds <> [] -> forallb isDigit ds = true -> stops r ->
  parseInt (ds ++ r) 10 = parseInt ds 10.
Proof.
  intros [|d ds'] r Hne Hds Hr; [contradiction|].
  pose proof Hds as Hall. simpl in Hds. apply andb_true_iff in Hds.
  destruct Hds as [Hd _].
  assert (Hw : isWhiteSpace d = false) by (apply digit_not_space, Hd).
  assert (Hh : N.eqb d hyphen = false)
    by (rewrite N.eqb_sym; apply (digit_is_not hyphen d Hd); reflexivity).
  assert (Hp : N.eqb d plus = false)
    by (rewrite N.eqb_sym; apply (digit_is_not plus d Hd); reflexivity).
  unfold parseInt.
  change ((d :: ds') ++ r) with (d :: (ds' ++ r)).
  cbn [trimStart]. rewrite Hw, Hh, Hp.
  change (10 =? 16) with false. cbv iota.
  change (d :: ds' ++ r) with ((d :: ds') ++ r).
  rewrite parseDigits_app by exact Hall.
  destruct r as [|c r']; [reflexivity|].
  rewrite parseDigits_stop by exact Hr. reflexivity.
Qed.

Lemma parseInt_undefined : parseInt (toStringOr None) 10 = NaN.
Proof. vm_compute. reflexivity. Qed.

(* ================================================================== *)
(** * The range parser *)
(* ================================================================== *)

Lemma parsePart_acc : forall maxPage rules part,
  parsePart maxPage rules part = rules ++ parsePart maxPage [] part.
Proof.
  intros maxPage rules part. unfold parsePart.
  destruct (includes hyphen part).
  - cbv zeta.
    match goal with |- (if ?c then _ else _) = _ => destruct c end;
      [reflexivity | symmetry; apply app_nil_r].
  - cbv zeta.
    match goal with |- (if ?c then _ else _) = _ => destruct c end;
      [reflexivity | symmetry; apply app_nil_r].
Qed.

Lemma fold_parsePart : forall maxPage ps acc,
  fold_left (parsePart maxPage) ps acc = acc ++ flat_map (parsePart maxPage []) ps.
Proof.
  intros maxPage ps. induction ps as [|p ps' IH]; intros acc; simpl.
  - symmetry. apply app_nil_r.
  - rewrite IH, (parsePart_acc maxPage acc p), app_assoc. reflexivity.
Qed.

Lemma parseMergeRules_flat : forall input maxPage,
  parseMergeRules input maxPage = flat_map (parsePart maxPage []) (parts input).
Proof. intros. unfold parseMergeRules. rewrite fold_parsePart. reflexivity. Qed.

(** A token adds nothing, or one rule: the one it reads, and within bounds. *)
Lemma parsePart_cases : forall maxPage rules part,
  parsePart maxPage rules part = rules
  \/ exists s e,
       parsePart maxPage rules part = rules ++ [rule s e]
       /\ (0 <= s /\ s <= e /\ e < maxPage) /\ reads part (s + 1) (e + 1).
Proof.
  intros maxPage rules part. unfold parsePart.
  destruct (includes hyphen part) eqn:Hh; cbv zeta.
  - destruct (map trim (split hyphen part)) as [|seg0 [|seg1 more]] eqn:E;
      cbn [nth_error]; try rewrite parseInt_undefined.
    + left. reflexivity.
    + left. cbn [toStringOr]. destruct (parseInt seg0 10); reflexivity.
    + cbn [toStringOr].
      destruct (parseInt seg0 10) as [|a] eqn:Ea; [left; reflexivity|].
      destruct (parseInt seg1 10) as [|b] eqn:Eb; [left; reflexivity|].
      cbn [nsub isNaN negb nge nlt nle andb].
      destruct ((0 <=? a - 1) && (b - 1 <? maxPage) && (a - 1 <=? b - 1)) eqn:C;
        [|left; reflexivity].
      right. exists (a - 1), (b - 1).
      apply andb_true_iff in C. destruct C as [C C3].
      apply andb_true_iff in C. destruct C as [C1 C2].
      apply Z.leb_le in C1, C3. apply Z.ltb_lt in C2.
      split; [reflexivity|]. split; [lia|].
      right. split; [exact Hh|]. exists seg0, seg1, more.
      replace (a - 1 + 1) with a by lia. replace (b - 1 + 1) with b by lia.
      auto.
  - destruct (parseInt part 10) as [|a] eqn:Ea; [left; reflexivity|].
    cbn [nsub isNaN negb nge nlt andb].
    destruct ((0 <=? a - 1) && (a - 1 <? maxPage)) eqn:C; [|left; reflexivity].
    right. exists (a - 1), (a - 1).
    apply andb_true_iff in C. destruct C as [C1 C2].
    apply Z.leb_le in C1. apply Z.ltb_lt in C2.
    split; [reflexivity|]. split; [lia|].
    left. replace (a - 1 + 1) with a by lia. auto.
Qed.

(** A token that reads as a range within the document adds exactly that
    range. *)
Lemma parsePart_valid : forall maxPage rules part a b,
  reads part a b -> 1 <= a -> a <= b -> b <= maxPage ->
  parsePart maxPage rules part = rules ++ [rule (a - 1) (b - 1)].
Proof.
  intros maxPage rules part a b R Ha Hab Hb. unfold parsePart.
  destruct R as [(Hh & Ep & Eb) | (Hh & seg0 & seg1 & more & E & E0 & E1)];
    rewrite Hh; cbv zeta.
  - subst b. rewrite Ep. cbn [nsub isNaN negb nge nlt andb].
    replace (0 <=? a - 1) with true by (symmetry; apply Z.leb_le; lia).
    replace (a - 1 <? maxPage) with true by (symmetry; apply Z.ltb_lt; lia).
    reflexivity.
  - rewrite E. cbn [nth_error toStringOr]. rewrite E0, E1.
    cbn [nsub isNaN negb nge nlt nle andb].
    replace (0 <=? a - 1) with true by (symmetry; apply Z.leb_le; lia).
    replace (b - 1 <? maxPage) with true by (symmetry; apply Z.ltb_lt; lia).
    replace (a - 1 <=? b - 1) with true by (symmetry; apply Z.leb_le; lia).
    reflexivity.
Qed.


Lemma parts_app : forall a b, parts (a ++ comma :: b) = parts a ++ parts b.
Proof.
  intros a b. unfold parts. rewrite split_app, map_app, filter_app. reflexivity.
Qed.

(** The tokens of an input without a comma: the trimmed input, unless it is
    empty. *)
Lemma parts_single : forall t,
  includes comma t = false -> parts t = if truthy (trim t) then [trim t] else [].
Proof.
  intros t H. unfold parts. rewrite (split_without _ _ H). reflexivity.
Qed.

(** A hyphenated token is judged by its first two segments. *)
Lemma parsePart_range_ext : forall maxPage rules p q,
  includes hyphen p = true -> includes hyphen q = true ->
  nth_error (map trim (split hyphen p)) 0 = nth_error (map trim (split hyphen q)) 0 ->
  nth_error (map trim (split hyphen p)) 1 = nth_error (map trim (split hyphen q)) 1 ->
  parsePart maxPage rules p = parsePart maxPage rules q.
Proof.
  intros maxPage rules p q Hp Hq E0 E1. unfold parsePart.
  rewrite Hp, Hq. cbv zeta. rewrite E0, E1. reflexivity.
Qed.

Lemma parsePart_single_ext : forall maxPage rules p q,
  includes hyphen p = false -> includes hyphen q = false ->
  parseInt p 10 = parseInt q 10 ->
  parsePart maxPage rules p = parsePart maxPage rules q.
Proof.
  intros maxPage rules p q Hp Hq E. unfold parsePart.
  rewrite Hp, Hq. cbv zeta. rewrite E. reflexivity.
Qed.

Lemma trim_digits : forall ds r,
  ds <> [] -> forallb isDigit ds = true -> trim (ds ++ r) = ds ++ trimEnd r.
Proof.
  intros [|d ds'] r Hne H; [contradiction|].
  unfold trim. pose proof H as Hall. simpl in H.
  apply andb_true_iff in H. destruct H as [Hd _].
  change ((d :: ds') ++ r) with (d :: (ds' ++ r)).
  cbn [trimStart]. rewrite (digit_not_space d Hd).
  change (d :: ds' ++ r) with ((d :: ds') ++ r).
  apply trimEnd_digits, Hall.
Qed.

Lemma truthy_app : forall a b : jsstring, a <> [] -> truthy (a ++ b) = true.
Proof. intros [|x a] b H; [contradiction | reflexivity]. Qed.

(** A numeral followed by other text counts as the numeral. *)
Lemma token_prefix : forall maxPage ds rest,
  ds <> [] -> forallb isDigit ds = true -> stops rest ->
  includes comma rest = false -> includes hyphen rest = false ->
  parseMergeRules (ds ++ rest) maxPage = parseMergeRules ds maxPage.
Proof.
  intros maxPage ds rest Hne Hds Hst Hc Hh.
  assert (Hcd : includes comma ds = false) by (apply digits_exclude; auto).
  assert (Hhd : includes hyphen ds = false) by (apply digits_exclude; auto).
  rewrite !parseMergeRules_flat.
  rewrite parts_single by (rewrite includes_app, Hcd, Hc; reflexivity).
  rewrite parts_single by exact Hcd.
  assert (Td : trim ds = ds).
  { rewrite <- (app_nil_r ds) at 1. rewrite trim_digits by assumption.
    cbn [trimEnd]. apply app_nil_r. }
  rewrite Td, trim_digits by assumption.
  rewrite truthy_app by assumption.
  replace (truthy ds) with true by (destruct ds; [contradiction | reflexivity]).
  cbn [flat_map]. rewrite !app_nil_r.
  apply parsePart_single_ext.
  - rewrite includes_app, Hhd. apply includes_trimEnd, Hh.
  - exact Hhd.
  - apply parseInt_prefix; auto using stops_trimEnd.
Qed.

Lemma hyphen_not_space : isWhiteSpace hyphen = false.
Proof. reflexivity. Qed.

Lemma trim_around_hyphen : forall a r,
  trim (a ++ hyphen :: r) = trimStart a ++ hyphen :: trimEnd r.
Proof.
  intros a r. unfold trim.
  rewrite trimStart_mid, trimEnd_mid by exact hyphen_not_space. reflexivity.
Qed.

Lemma includes_mid : forall c a r, includes c (a ++ c :: r) = true.
Proof.
  intros c a r. rewrite includes_app. simpl. rewrite N.eqb_refl.
  apply orb_true_r.
Qed.

(** Segments after the second are not looked at. *)
Lemma token_extra_segments : forall maxPage a b more,
  includes hyphen a = false -> includes hyphen b = false ->
  includes comma a = false -> includes comma b = false ->
  includes comma more = false ->
  parseMergeRules (a ++ hyphen :: b ++ hyphen :: more) maxPage
  = parseMergeRules (a ++ hyphen :: b) maxPage.
Proof.
  intros maxPage a b more Ha Hb Ca Cb Cm.
  assert (Chy : forall x r,
            includes comma (x ++ hyphen :: r) = includes comma x || includes comma r)
    by (intros x r; rewrite includes_app; reflexivity).
  rewrite !parseMergeRules_flat.
  rewrite parts_single by (rewrite !Chy, Ca, Cb, Cm; reflexivity).
  rewrite parts_single by (rewrite Chy, Ca, Cb; reflexivity).
  rewrite !trim_around_hyphen.
  rewrite trimEnd_mid by exact hyphen_not_space.
  assert (T : forall r, truthy (trimStart a ++ hyphen :: r) = true)
    by (intros r; destruct (trimStart a); reflexivity).
  rewrite !T. cbn [flat_map]. rewrite !app_nil_r.
  pose proof (includes_trimStart hyphen a Ha) as Ha'.
  apply parsePart_range_ext.
  - apply includes_mid.
  - apply includes_mid.
  - rewrite !split_app, (split_without _ _ Ha'). reflexivity.
  - rewrite !split_app, (split_without _ _ Ha'), (split_without _ _ Hb).
    rewrite (split_without _ _ (includes_trimEnd hyphen b Hb)).
    cbn [app map nth_error]. rewrite trim_trimEnd. reflexivity.
Qed.




(** C10: a token that starts with a decimal numeral and goes on with other
    text is read as the numeral (["3abc"] gives [(2,2)] once
    [maxPage >= 3]); of a token with more than one hyphen only the first
    two segments are read. *)
Theorem parseMergeRules_lenient : forall (maxPage : Z),
  (forall ds rest,
     ds <> [] -> forallb isDigit ds = true -> stops rest ->
     includes comma rest = false -> includes hyphen rest = false ->
     parseInt (ds ++ rest) 10 = parseInt ds 10
     /\ parseMergeRules (ds ++ rest) maxPage = parseMergeRules ds maxPage)
  /\ (3 <= maxPage -> parseMergeRules (js "3abc") maxPage = [rule 2 2])
  /\ (forall a b more,
        includes hyphen a = false -> includes hyphen b = false ->
        includes comma a = false -> includes comma b = false ->
        includes comma more = false ->
        parseMergeRules (a ++ hyphen :: b ++ hyphen :: more) maxPage
        = parseMergeRules (a ++ hyphen :: b) maxPage)
  /\ parseMergeRules (js "1-3-5") 10 = [rule 0 2]
  /\ parseMergeRules (js "2-4-x-, 12 px") 20 = [rule 1 3; rule 11 11].
Proof.
  intros maxPage. split; [|split; [|split; [|split]]].
  - intros ds rest Hne Hds Hst Hc Hh. split.
    + apply parseInt_prefix; assumption.
    + apply token_prefix; assumption.
  - intros H. unfold parseMergeRules.
    change (parts (js "3abc")) with [js "3abc"]. cbn [fold_left].
    unfold parsePart.
    change (includes hyphen (js "3abc")) with false. cbv iota zeta.
    change (parseInt (js "3abc") 10) with (Num 3).
    cbn [nsub isNaN negb nge nlt andb].
    change (3 - 1) with 2. change (0 <=? 2) with true.
    replace (2 <? maxPage) with true by (symmetry; apply Z.ltb_lt; lia).
    reflexivity.
  - apply token_extra_segments.
  - vm_compute. reflexivity.
  - vm_compute. reflexivity.
Qed.

Lemma parseMergeRules_lenient_witness :
  parseInt (js "12" ++ js "px") 10 = parseInt (js "12") 10
  /\ parseMergeRules (js "12" ++ js "px") 20 = parseMergeRules (js "12") 20.
Proof.
  apply (proj1 (parseMergeRules_lenient 20) (js "12") (js "px")).
  - discriminate.
  - reflexivity.
  - reflexivity.
  - reflexivity.
  - reflexivity.
Defined.

(* ================================================================== *)
(** * The codec *)
(* ================================================================== *)

Lemma setPage_length : forall pgs i p, length (setPage pgs i p) = length pgs.
Proof.
  induction pgs as [|q rest IH]; intros i p; [reflexivity|].
  destruct i; simpl; [reflexivity | rewrite IH; reflexivity].
Qed.



Lemma pageAt_nat : forall pgs i, pageAt pgs (Num (Z.of_nat i)) = nth_error pgs i.
Proof.
  intros pgs i. unfold pageAt.
  replace (Z.of_nat i <? 0) with false by (symmetry; apply Z.ltb_ge; lia).
  rewrite Nat2Z.id. reflexivity.
Qed.

Lemma pageAt_inRange : forall pgs i p,
  pageAt pgs i = Some p -> inRange (length pgs) i = true.
Proof.
  intros pgs [|z] p H; [discriminate|]. unfold pageAt in H.
  destruct (z <? 0) eqn:E; [discriminate|]. apply Z.ltb_ge in E.
  assert (Hn : (Z.to_nat z < length pgs)%nat)
    by (apply nth_error_Some; congruence).
  unfold inRange, nge, nlt. apply andb_true_iff. split.
  - apply Z.leb_le. lia.
  - apply Z.ltb_lt. lia.
Qed.

Lemma inRange_pageAt : forall pgs i,
  inRange (length pgs) i = true -> exists p, pageAt pgs i = Some p.
Proof.
  intros pgs [|z] H; [discriminate|].
  unfold inRange, nge, nlt in H. apply andb_true_iff in H.
  destruct H as [H1 H2]. apply Z.leb_le in H1. apply Z.ltb_lt in H2.
  unfold pageAt. replace (z <? 0) with false by (symmetry; apply Z.ltb_ge; lia).
  destruct (nth_error pgs (Z.to_nat z)) as [p|] eqn:E; [eauto|].
  apply nth_error_None in E. lia.
Qed.

(** [copyPages] gives the pages at the indices, in the order of the
    indices. *)
Lemma copyPages_spec : forall src indices copied,
  copyPages src indices = Some copied ->
  Forall2 (fun i p => pageAt src i = Some p) indices copied.
Proof.
  intros src indices. induction indices as [|i rest IH]; intros copied H.
  - inversion H. constructor.
  - simpl in H. destruct (pageAt src i) as [p|] eqn:E; [|discriminate].
    destruct (copyPages src rest) as [ps|]; [|discriminate].
    inversion H; subst. constructor; [exact E | apply IH; reflexivity].
Qed.

(** [copyPages] succeeds exactly when every index has a page. *)
Lemma copyPages_total : forall src indices,
  forallb (inRange (length src)) indices = true ->
  exists copied, copyPages src indices = Some copied.
Proof.
  intros src indices. induction indices as [|i rest IH]; intros H.
  - exists []. reflexivity.
  - simpl in H. apply andb_true_iff in H. destruct H as [Hi Hr].
    destruct (inRange_pageAt src i Hi) as [p Ep].
    destruct (IH Hr) as [ps Eps].
    exists (p :: ps). simpl. rewrite Ep, Eps. reflexivity.
Qed.

Lemma copyPages_length : forall src indices copied,
  copyPages src indices = Some copied -> length copied = length indices.
Proof.
  intros src indices copied H. apply copyPages_spec in H.
  symmetry. eapply Forall2_length. exact H.
Qed.

Lemma copyPages_from : forall pre ps,
  copyPages (pre ++ ps)
    (map (fun i => Num (Z.of_nat i)) (seq (length pre) (length ps))) = Some ps.
Proof.
  intros pre ps. revert pre. induction ps as [|p rest IH]; intros pre.
  - reflexivity.
  - cbn [length seq map copyPages].
    rewrite pageAt_nat, nth_error_app2 by lia.
    rewrite Nat.sub_diag. cbn [nth_error].
    specialize (IH (pre ++ [p])).
    rewrite <- app_assoc, length_app, Nat.add_1_r in IH. cbn [app] in IH.
    rewrite IH. reflexivity.
Qed.

(** Copying every page of a document, in order, gives its pages. *)
Lemma copyPages_all : forall ps, copyPages ps (getPageIndices ps) = Some ps.
Proof. intros ps. exact (copyPages_from [] ps). Qed.

Lemma skipn_nth : forall (ps : list PDFPage) a p,
  nth_error ps a = Some p -> skipn a ps = p :: skipn (S a) ps.
Proof.
  induction ps as [|x rest IH]; intros a p H.
  - destruct a; discriminate.
  - destruct a; simpl in *.
    + inversion H. reflexivity.
    + apply IH, H.
Qed.

(** The indices of a range select the run of pages it names. *)
Lemma copyPages_countUp : forall k s ps,
  0 <= s -> s + Z.of_nat k <= Z.of_nat (length ps) ->
  copyPages ps (countUp k s) = Some (firstn k (skipn (Z.to_nat s) ps)).
Proof.
  induction k as [|k IH]; intros s ps Hs Hk; [reflexivity|].
  cbn [countUp copyPages].
  unfold pageAt. replace (s <? 0) with false by (symmetry; apply Z.ltb_ge; lia).
  destruct (nth_error ps (Z.to_nat s)) as [p|] eqn:E.
  - rewrite IH by lia. rewrite (skipn_nth ps _ p E). cbn [firstn].
    replace (Z.to_nat (s + 1)) with (S (Z.to_nat s)) by lia. reflexivity.
  - apply nth_error_None in E. lia.
Qed.

(* ================================================================== *)
(** * Reordering and extraction *)
(* ================================================================== *)

(** C6: [reorderPages] and [extractPages] agree on every buffer and every
    index list, failures included; when every index names a page they
    return a document, and the document they return holds exactly the
    source pages at the given indices in the given order; with the identity
    order the result is the source's page sequence. *)
Theorem reorderPages_is_extractPages :
  forall (arrayBuffer : ArrayBuffer) (newOrder : list number),
  reorderPages arrayBuffer newOrder = extractPages arrayBuffer newOrder
  /\ (forall ps,
        load arrayBuffer = Some ps ->
        forallb (inRange (length ps)) newOrder = true ->
        exists copied,
          reorderPages arrayBuffer newOrder = Some (save copied)
          /\ Forall2 (fun i p => pageAt ps i = Some p) newOrder copied)
  /\ (forall ps,
        load arrayBuffer = Some ps ->
        reorderPages arrayBuffer (getPageIndices ps) = Some (save ps)
        /\ load (save ps) = Some ps).
Proof.
  intros arrayBuffer newOrder. split; [reflexivity|]. split.
  - intros ps L H. unfold reorderPages. rewrite L.
    destruct (copyPages_total ps newOrder H) as [copied E].
    exists copied. rewrite E. split; [reflexivity|].
    apply copyPages_spec, E.
  - intros ps L. unfold reorderPages. rewrite L, copyPages_all.
    split; reflexivity.
Qed.

Lemma reorderPages_is_extractPages_witness :
  exists copied,
    reorderPages (PdfBytes tenPages) [Num 2; Num 0; Num 2] = Some (save copied)
    /\ Forall2 (fun i p => pageAt tenPages i = Some p) [Num 2; Num 0; Num 2] copied.
Proof.
  apply (proj1 (proj2 (reorderPages_is_extractPages (PdfBytes tenPages)
                         [Num 2; Num 0; Num 2])) tenPages).
  - reflexivity.
  - reflexivity.
Defined.

(* ================================================================== *)
(** * Rotation *)
(* ================================================================== *)


Lemma rotateOne_length : forall degrees pgs i,
  length (rotateOne degrees pgs i) = length pgs.
Proof.
  intros degrees pgs i. unfold rotateOne.
  destruct (nge i 0 && nlt i (Z.of_nat (length pgs))); [|reflexivity].
  destruct (pageAt pgs i); [|reflexivity].
  destruct i; [reflexivity|]. apply setPage_length.
Qed.



Lemma rotate_fold_length : forall degrees indices pgs,
  length (fold_left (rotateOne degrees) indices pgs) = length pgs.
Proof.
  intros degrees indices. induction indices as [|i rest IH]; intros pgs.
  - reflexivity.
  - cbn [fold_left]. rewrite IH. apply rotateOne_length.
Qed.





Example rotate_twice_angles :
  option_map (fun b => match b with PdfBytes ps => map p_angle ps | NotPdf => [] end)
    (rotatePages (PdfBytes tenPages) [Num 2; Num 11; NaN; Num 2; Num (-1); Num 4] 90)
  = Some [0; 0; 180; 0; 90; 0; 0; 0; 0; 0].
Proof. vm_compute. reflexivity. Qed.

(* ================================================================== *)
(** * Split and merge *)
(* ================================================================== *)


(** With rules that tile the document from [from] on, the merge appends the
    document's pages from [from] on. *)
Lemma merge_of_tiling : forall ps ranges from acc,
  0 <= from ->
  tiles from (Z.of_nat (length ps)) ranges = true ->
  exists buffers,
    splitLoop ps ranges = Some buffers
    /\ mergeLoop acc buffers = Some (acc ++ skipn (Z.to_nat from) ps).
Proof.
  intros ps ranges. induction ranges as [|r rest IH]; intros from acc Hf T.
  - cbn [tiles] in T. apply Z.eqb_eq in T.
    exists []. split; [reflexivity|]. cbn [mergeLoop].
    rewrite skipn_all2 by lia. rewrite app_nil_r. reflexivity.
  - cbn [tiles] in T.
    destruct r as [[|s] [|e]]; cbn [start end_] in T; try discriminate.
    apply andb_true_iff in T. destruct T as [T T4].
    apply andb_true_iff in T. destruct T as [T T3].
    apply andb_true_iff in T. destruct T as [T1 T2].
    apply Z.eqb_eq in T1. apply Z.leb_le in T2. apply Z.ltb_lt in T3. subst s.
    cbn [splitLoop]. unfold rangeIndices. cbn [start end_].
    rewrite copyPages_countUp by lia.
    set (copied := firstn (Z.to_nat (e - from + 1)) (skipn (Z.to_nat from) ps)).
    destruct (IH (e + 1) (acc ++ copied) ltac:(lia) T4) as (buffers & Es & Em).
    rewrite Es. exists (save copied :: buffers). split; [reflexivity|].
    cbn [mergeLoop load save]. rewrite copyPages_all, Em, <- app_assoc.
    do 2 f_equal. unfold copied.
    replace (Z.to_nat (e + 1)) with (Z.to_nat (e - from + 1) + Z.to_nat from)%nat
      by lia.
    rewrite <- skipn_skipn. apply firstn_skipn.
Qed.

(** The rules [handleSplit] uses when no rule is typed, one per page, tile
    the document. *)
Lemma one_per_page_tiles : forall (l : list PDFPageData) k,
  tiles (Z.of_nat k) (Z.of_nat (k + length l))
    (mapiFrom (fun _ i => mkRule (Num (Z.of_nat i)) (Num (Z.of_nat i))) k l) = true.
Proof.
  induction l as [|x rest IH]; intros k.
  - cbn. rewrite Nat.add_0_r. apply Z.eqb_refl.
  - cbn [mapiFrom tiles start end_ length].
    rewrite Z.eqb_refl, Z.leb_refl.
    replace (Z.of_nat k <? Z.of_nat (k + S (length rest))) with true
      by (symmetry; apply Z.ltb_lt; lia).
    replace (Z.of_nat k + 1) with (Z.of_nat (S k)) by lia.
    replace (k + S (length rest))%nat with (S k + length rest)%nat by lia.
    apply IH.
Qed.




(* ================================================================== *)
(** * Cropping *)
(* ================================================================== *)





(* ================================================================== *)
(** * The page model and the bytes *)
(* ================================================================== *)

Lemma eqbStr_eq : forall s t, eqbStr s t = true <-> s = t.
Proof.
  induction s as [|a s' IH]; intros [|b t']; simpl; split; intros H;
    try reflexivity; try discriminate.
  - apply andb_true_iff in H. destruct H as [H1 H2].
    apply N.eqb_eq in H1. apply IH in H2. congruence.
  - inversion H; subst. rewrite N.eqb_refl. apply IH. reflexivity.
Qed.

Lemma mapiFrom_length : forall (A B : Type) (f : A -> nat -> B) l k,
  length (mapiFrom f k l) = length l.
Proof.
  intros A B f l. induction l as [|x rest IH]; intros k; simpl;
    [reflexivity | rewrite IH; reflexivity].
Qed.

Lemma map_mapiFrom : forall (A B C : Type) (g : B -> C) (f : A -> nat -> B) l k,
  map g (mapiFrom f k l) = mapiFrom (fun a i => g (f a i)) k l.
Proof.
  intros A B C g f l. induction l as [|a rest IH]; intros k; simpl;
    [reflexivity | rewrite IH; reflexivity].
Qed.

Lemma mapiFrom_ext : forall (A B : Type) (f g : A -> nat -> B) l k,
  (forall a i, f a i = g a i) -> mapiFrom f k l = mapiFrom g k l.
Proof.
  intros A B f g l. induction l as [|a rest IH]; intros k H; simpl;
    [reflexivity | rewrite H, (IH _ H); reflexivity].
Qed.

Lemma mapiFrom_plain : forall (A B : Type) (g : A -> B) l k,
  mapiFrom (fun a _ => g a) k l = map g l.
Proof.
  intros A B g l. induction l as [|a rest IH]; intros k; simpl;
    [reflexivity | rewrite IH; reflexivity].
Qed.

Lemma mapiFrom_index : forall (A : Type) (l : list A) k,
  mapiFrom (fun _ i => i) k l = seq k (length l).
Proof.
  intros A l. induction l as [|a rest IH]; intros k; simpl;
    [reflexivity | rewrite IH; reflexivity].
Qed.

Lemma skipn_cons_nth : forall (A : Type) (l : list A) k a,
  nth_error l k = Some a -> skipn k l = a :: skipn (S k) l.
Proof.
  intros A l. induction l as [|b rest IH]; intros k a H.
  - destruct k; discriminate.
  - destruct k; simpl in *; [inversion H; reflexivity | apply IH, H].
Qed.

(** Reading [thumbnails[i]] at each position gives the thumbnails. *)
Lemma mapiFrom_lookup : forall (A T : Type) (ths : list T) (l : list A) k,
  (k + length l <= length ths)%nat ->
  mapiFrom (fun _ i => nth_error ths i) k l
  = map Some (firstn (length l) (skipn k ths)).
Proof.
  intros A T ths l. induction l as [|a rest IH]; intros k H; [reflexivity|].
  cbn [length] in *. cbn [mapiFrom].
  destruct (nth_error ths k) as [t|] eqn:E.
  - rewrite (skipn_cons_nth _ ths k t E). cbn [firstn map].
    rewrite IH by lia. reflexivity.
  - apply nth_error_None in E. lia.
Qed.

Lemma thumbnailLoop_from : forall scale pre ps,
  thumbnailLoop (pre ++ ps) scale (length ps) (S (length pre))
  = Some (map (fun p => mkImage p scale) ps).
Proof.
  intros scale pre ps. revert pre. induction ps as [|p rest IH]; intros pre.
  - reflexivity.
  - cbn [length thumbnailLoop renderPageToCanvas].
    rewrite nth_error_app2 by lia. rewrite Nat.sub_diag. cbn [nth_error option_map].
    specialize (IH (pre ++ [p])).
    rewrite <- app_assoc, length_app, Nat.add_1_r in IH. cbn [app] in IH.
    rewrite IH. reflexivity.
Qed.

(** One thumbnail per page of the buffer, in page order. *)
Lemma generateThumbnails_pages : forall b scale ps,
  load b = Some ps ->
  generateThumbnails b scale = Some (map (fun p => mkImage p scale) ps).
Proof.
  intros b scale ps L. unfold generateThumbnails, loadPDFDocument. rewrite L.
  exact (thumbnailLoop_from scale [] ps).
Qed.

Lemma generateThumbnails_inv : forall b scale ths,
  generateThumbnails b scale = Some ths ->
  exists ps, load b = Some ps /\ ths = map (fun p => mkImage p scale) ps.
Proof.
  intros b scale ths H. destruct (load b) as [ps|] eqn:L.
  - rewrite (generateThumbnails_pages b scale ps L) in H. inversion H. eauto.
  - unfold generateThumbnails, loadPDFDocument in H. rewrite L in H. discriminate.
Qed.

Lemma initializePages_length : forall n, length (initializePages n) = n.
Proof. intros n. unfold initializePages. rewrite length_map, length_seq. reflexivity. Qed.

(** A page array made anew for a buffer matches the buffer. *)
Lemma synced_fresh : forall i nm b ps,
  load b = Some ps ->
  synced (mkDocument i nm b (length ps)
            (withThumbnails (initializePages (length ps))
               (map (fun p => mkImage p thumbnailScale) ps))).
Proof.
  intros i nm b ps L. exists ps. cbn [arrayBuffer pageCount pages].
  unfold withThumbnails, mapi.
  split; [exact L|]. split; [reflexivity|]. split; [|split].
  - rewrite mapiFrom_length. apply initializePages_length.
  - rewrite map_mapiFrom. cbn [pageIndex]. rewrite mapiFrom_plain.
    unfold initializePages. rewrite map_map. cbn [pageIndex]. apply map_id.
  - rewrite map_mapiFrom. cbn [thumbnail].
    rewrite mapiFrom_lookup
      by (rewrite initializePages_length, length_map; cbn; lia).
    rewrite initializePages_length. cbn [skipn].
    rewrite firstn_all2 by (rewrite length_map; lia).
    apply map_map.
Qed.

(** A page array remade entry by entry, with thumbnails of the new buffer,
    matches the new buffer when the page count has not changed. *)
Lemma synced_mapi : forall d b ps' (F : PDFPageData -> nat -> PDFPageData),
  synced d ->
  load b = Some ps' ->
  length ps' = pageCount d ->
  (forall a i, pageIndex (F a i) = pageIndex a) ->
  (forall a i, thumbnail (F a i)
               = nth_error (map (fun p => mkImage p thumbnailScale) ps') i) ->
  synced (mkDocument (id d) (name d) b (pageCount d) (mapi F (pages d))).
Proof.
  intros d b ps' F (ps & L & Hn & Hl & Hi & Ht) L' Hn' FI FT.
  exists ps'. cbn [arrayBuffer pageCount pages]. unfold mapi.
  split; [exact L'|]. split; [exact Hn'|]. split; [|split].
  - rewrite mapiFrom_length. exact Hl.
  - rewrite map_mapiFrom, (mapiFrom_ext _ _ _ _ _ _ FI), mapiFrom_plain. exact Hi.
  - rewrite map_mapiFrom, (mapiFrom_ext _ _ _ _ _ _ FT).
    rewrite mapiFrom_lookup by (rewrite length_map; cbn; lia).
    cbn [skipn]. rewrite firstn_all2 by (rewrite length_map; lia).
    apply map_map.
Qed.

Lemma consistent_docs : forall s s',
  documents s' = documents s -> consistent s -> consistent s'.
Proof. intros s s' E. unfold consistent. rewrite E. tauto. Qed.

Lemma activeDoc_In : forall s d, activeDoc s = Some d -> In d (documents s).
Proof.
  intros s d H. unfold activeDoc in H. destruct (activeDocId s); [|discriminate].
  apply find_some in H. tauto.
Qed.

Lemma unique_by_id : forall docs a b,
  NoDup (map id docs) -> In a docs -> In b docs -> id a = id b -> a = b.
Proof.
  induction docs as [|d rest IH]; intros a b N Ha Hb E; [contradiction|].
  cbn [map] in N. inversion N as [|? ? Hnot N']; subst.
  destruct Ha as [Ha|Ha], Hb as [Hb|Hb]; subst.
  - reflexivity.
  - exfalso. apply Hnot. rewrite E. apply in_map, Hb.
  - exfalso. apply Hnot. rewrite <- E. apply in_map, Ha.
  - apply IH; assumption.
Qed.

(** The one [setDocuments] of a handler: only the active document changes,
    and its buffer and its page array change together. *)
Lemma updateActive_consistent : forall s active f,
  consistent s ->
  In active (documents s) ->
  id (f active) = id active ->
  synced (f active) ->
  consistent (updateActive s active f).
Proof.
  intros s active f [N S] Hin Hid Hs. unfold consistent, updateActive.
  cbn [documents setDocuments].
  assert (G : forall d, In d (documents s) ->
            (if negb (eqbStr (id d) (id active)) then d else f d) = d
            \/ ((if negb (eqbStr (id d) (id active)) then d else f d) = f active)).
  { intros d Hd. destruct (eqbStr (id d) (id active)) eqn:E; cbn [negb].
    - right. apply eqbStr_eq in E.
      rewrite (unique_by_id (documents s) d active N Hd Hin E). reflexivity.
    - left. reflexivity. }
  split.
  - rewrite map_map.
    rewrite (map_ext_in _ id); [exact N|].
    intros d Hd. destruct (eqbStr (id d) (id active)) eqn:E; cbn [negb];
      [|reflexivity].
    apply eqbStr_eq in E.
    rewrite (unique_by_id (documents s) d active N Hd Hin E). exact Hid.
  - apply Forall_forall. intros d' Hd'. apply in_map_iff in Hd'.
    destruct Hd' as (d & Ed & Hd). rewrite Forall_forall in S.
    destruct (G d Hd) as [E|E]; rewrite E in Ed; subst d'; auto.
Qed.

Lemma synced_of_active : forall s d,
  consistent s -> activeDoc s = Some d -> synced d.
Proof.
  intros s d [_ S] A. rewrite Forall_forall in S. apply S, (activeDoc_In s d A).
Qed.

Lemma thumbnails_of_saved : forall ps ths,
  generateThumbnails (save ps) thumbnailScale = Some ths ->
  ths = map (fun p => mkImage p thumbnailScale) ps.
Proof.
  intros ps ths H. apply generateThumbnails_inv in H.
  destruct H as (ps0 & L & E). inversion L; subst. reflexivity.
Qed.

Lemma copyPages_NaN : forall src indices,
  In NaN indices -> copyPages src indices = None.
Proof.
  intros src indices. induction indices as [|i rest IH]; intros H; [contradiction|].
  destruct H as [H|H].
  - subst i. reflexivity.
  - cbn [copyPages]. rewrite (IH H). destruct (pageAt src i); reflexivity.
Qed.

Lemma extractPages_inv : forall b indices nb,
  extractPages b indices = Some nb ->
  exists ps copied,
    load b = Some ps /\ copyPages ps indices = Some copied /\ nb = save copied.
Proof.
  intros b indices nb H. unfold extractPages in H.
  destruct (load b) as [ps|]; [|discriminate].
  destruct (copyPages ps indices) as [copied|] eqn:E; [|discriminate].
  inversion H. exists ps, copied. auto.
Qed.

(** The order [handleMovePage] builds has one entry per page, unless nothing
    was taken out, and then it holds a hole. *)
Lemma moveOrder_shape : forall n fromIndex toIndex,
  length (moveOrder n fromIndex toIndex) = n
  \/ In NaN (moveOrder n fromIndex toIndex).
Proof.
  intros n fromIndex toIndex. unfold moveOrder, splice. cbv zeta.
  set (o := asIndices (seq 0 n)).
  assert (Lo : length o = n)
    by (unfold o, asIndices; rewrite length_map, length_seq; reflexivity).
  set (k := spliceStart o fromIndex).
  destruct (skipn k o) as [|r rest] eqn:E.
  - right. cbn [firstn nth_error indexOr fst app].
    apply in_or_app. right. left. reflexivity.
  - left. cbn [firstn nth_error indexOr fst].
    set (o1 := firstn k o ++ [] ++ skipn (k + 1) o).
    assert (L1 : S (length o1) = n).
    { unfold o1. cbn [app].
      assert (Hk : length (skipn k o) = S (length rest)) by (rewrite E; reflexivity).
      rewrite length_skipn in Hk.
      rewrite length_app, length_firstn, length_skipn. lia. }
    set (k' := spliceStart o1 toIndex).
    rewrite length_app. cbn [app length]. rewrite Nat.add_0_r.
    pose proof (firstn_skipn k' o1) as FS.
    apply (f_equal (@length number)) in FS. rewrite length_app in FS. lia.
Qed.

Lemma handleFileUpload_docs : forall randomUUID files k acc out,
  uploadLoop randomUUID k files acc = Some out ->
  Forall synced acc -> Forall synced out.
Proof.
  intros randomUUID files. induction files as [|file rest IH];
    intros k acc out H S.
  - inversion H; subst. exact S.
  - cbn [uploadLoop] in H.
    destruct (negb (eqbStr (f_type file) (js "application/pdf")));
      [exact (IH _ _ _ H S)|].
    destruct (getPageCount (f_bytes file)) as [n|] eqn:C; [|discriminate].
    destruct (generateThumbnails (f_bytes file) thumbnailScale) as [ths|] eqn:G;
      [|discriminate].
    apply generateThumbnails_inv in G. destruct G as (ps & L & Eths).
    unfold getPageCount, loadPDFDocument in C. rewrite L in C.
    inversion C; subst n ths.
    apply (IH _ _ _ H). apply Forall_app. split; [exact S|].
    constructor; [|constructor]. apply synced_fresh, L.
Qed.

Lemma handleFileUpload_consistent : forall s randomUUID files,
  consistent s ->
  NoDup (map id (documents (fst (handleFileUpload s randomUUID files)))) ->
  consistent (fst (handleFileUpload s randomUUID files)).
Proof.
  intros s randomUUID files C N. split; [exact N|].
  unfold handleFileUpload. destruct files as [|file rest]; [apply C|].
  destruct (uploadLoop randomUUID 0 (file :: rest) []) as [newDocs|] eqn:U;
    [|apply C].
  cbn [fst documents]. apply Forall_app. split; [apply C|].
  apply (handleFileUpload_docs _ _ _ _ _ U). constructor.
Qed.

Lemma handleRotate_consistent : forall s degrees,
  consistent s -> consistent (fst (handleRotate s degrees)).
Proof.
  intros s degrees C. unfold handleRotate.
  destruct (activeDoc s) as [active|] eqn:A; [|exact C].
  destruct (selectedPages s) as [|key keys] eqn:Sel; [exact C|].
  unfold handleRotate_try. cbv zeta.
  set (pageIndices := selectedIndices _ active).
  pose proof (synced_of_active s active C A) as Sa.
  destruct Sa as (ps & L & Hn & Sa').
  unfold rotatePages. rewrite L.
  set (ps' := fold_left (rotateOne degrees) pageIndices ps).
  destruct (generateThumbnails (save ps') thumbnailScale) as [ths|] eqn:G;
    [|exact C].
  apply thumbnails_of_saved in G. subst ths. cbn [fst].
  apply updateActive_consistent;
    [exact C | exact (activeDoc_In s active A) | reflexivity |].
  apply (synced_mapi active (save ps') ps').
  - exists ps. auto.
  - reflexivity.
  - unfold ps'. rewrite rotate_fold_length. exact Hn.
  - reflexivity.
  - reflexivity.
Qed.

Lemma handleDeletePages_consistent : forall s,
  consistent s -> consistent (fst (handleDeletePages s)).
Proof.
  intros s C. unfold handleDeletePages.
  destruct (activeDoc s) as [active|] eqn:A; [|exact C].
  destruct (selectedPages s) as [|key keys] eqn:Sel; [exact C|].
  unfold handleDeletePages_body. cbv zeta.
  set (toDelete := selectedIndices _ active).
  destruct (Nat.eqb (length toDelete) (pageCount active)); [exact C|].
  set (remaining := remainingIndices active toDelete).
  destruct (extractPages (arrayBuffer active) (asIndices remaining)) as [nb|] eqn:X;
    [|exact C].
  apply extractPages_inv in X. destruct X as (ps & copied & L & Ec & Enb).
  subst nb.
  destruct (generateThumbnails (save copied) thumbnailScale) as [ths|] eqn:G;
    [|exact C].
  apply thumbnails_of_saved in G. subst ths. cbn [fst].
  apply (consistent_docs _ (clearSelection _) eq_refl).
  apply updateActive_consistent;
    [exact C | exact (activeDoc_In s active A) | reflexivity |].
  assert (E : length remaining = length copied).
  { rewrite (copyPages_length _ _ _ Ec). unfold asIndices.
    rewrite length_map. reflexivity. }
  rewrite E. apply synced_fresh. reflexivity.
Qed.

Lemma handleMovePage_consistent : forall s fromIndex toIndex,
  consistent s -> consistent (fst (handleMovePage s fromIndex toIndex)).
Proof.
  intros s fromIndex toIndex C. unfold handleMovePage.
  destruct (activeDoc s) as [active|] eqn:A; [|exact C].
  destruct (fromIndex =? toIndex); [exact C|].
  set (newOrder := moveOrder _ fromIndex toIndex).
  destruct (reorderPages (arrayBuffer active) newOrder) as [nb|] eqn:X;
    [|exact C].
  change (reorderPages (arrayBuffer active) newOrder)
    with (extractPages (arrayBuffer active) newOrder) in X.
  apply extractPages_inv in X. destruct X as (ps & copied & L & Ec & Enb).
  subst nb.
  destruct (generateThumbnails (save copied) thumbnailScale) as [ths|] eqn:G;
    [|exact C].
  apply thumbnails_of_saved in G. subst ths. cbn [fst].
  apply updateActive_consistent;
    [exact C | exact (activeDoc_In s active A) | reflexivity |].
  pose proof (synced_of_active s active C A) as (ps0 & _ & _ & Hl & _).
  assert (E : pageCount active = length copied).
  { rewrite (copyPages_length _ _ _ Ec).
    destruct (moveOrder_shape (length (pages active)) fromIndex toIndex) as [M|M].
    - unfold newOrder. rewrite M. symmetry. exact Hl.
    - unfold newOrder in Ec. rewrite (copyPages_NaN ps _ M) in Ec. discriminate. }
  rewrite E. apply synced_fresh. reflexivity.
Qed.

Lemma cropPage_inv : forall b i box w h nb,
  cropPage b i box w h = Some nb ->
  exists ps ps', load b = Some ps /\ nb = save ps' /\ length ps' = length ps.
Proof.
  intros b i box w h nb H. unfold cropPage in H.
  destruct (load b) as [ps|]; [|discriminate].
  destruct (nth_error ps i) as [page|]; [|discriminate].
  destruct (p_size page). inversion H.
  eexists _, _. split; [reflexivity|]. split; [reflexivity|].
  apply setPage_length.
Qed.

Lemma addTextToPage_inv : forall b i annotations nb,
  addTextToPage b i annotations = Some nb ->
  exists ps ps', load b = Some ps /\ nb = save ps' /\ length ps' = length ps.
Proof.
  intros b i annotations nb H. unfold addTextToPage in H.
  destruct (load b) as [ps|]; [|discriminate].
  destruct (nth_error ps i) as [page|]; [|discriminate].
  inversion H.
  eexists _, _. split; [reflexivity|]. split; [reflexivity|].
  apply setPage_length.
Qed.

(** The document that [applyCrop] and [saveAnnotations] install. *)
Lemma refreshed_consistent : forall s active ps ps' g,
  consistent s ->
  activeDoc s = Some active ->
  load (arrayBuffer active) = Some ps ->
  length ps' = length ps ->
  consistent
    (updateActive s active (fun doc =>
       mkDocument (id doc) (name doc) (save ps') (pageCount doc)
         (refreshed g (map (fun p => mkImage p thumbnailScale) ps') (pages doc)))).
Proof.
  intros s active ps ps' g C A L E.
  apply updateActive_consistent;
    [exact C | exact (activeDoc_In s active A) | reflexivity |].
  pose proof (synced_of_active s active C A) as Sa.
  apply (synced_mapi active (save ps') ps'); try reflexivity; [exact Sa|].
  destruct Sa as (ps0 & L0 & Hn & _). rewrite L in L0. inversion L0; subst ps0.
  lia.
Qed.

Lemma applyCrop_consistent : forall s,
  consistent s -> consistent (fst (applyCrop s)).
Proof.
  intros s C. unfold applyCrop.
  destruct (activeDoc s) as [active|] eqn:A; [|exact C].
  destruct (activePageIndex s) as [pageIndex|]; [|exact C].
  destruct (cropBox s) as [box|]; [|exact C].
  destruct (cropPage _ _ _ _ _) as [nb|] eqn:X; [|exact C].
  apply cropPage_inv in X. destruct X as (ps & ps' & L & Enb & E). subst nb.
  destruct (generateThumbnails (save ps') thumbnailScale) as [ths|] eqn:G;
    [|exact C].
  apply thumbnails_of_saved in G. subst ths.
  pose proof (refreshed_consistent s active ps ps'
                (fun page _ => textAnnotations page) C A L E) as C1.
  cbv zeta. destruct (loadPDFDocument (save ps')) as [pdfDoc|]; [|exact C1].
  destruct (renderPageToCanvas pdfDoc (pageIndex + 1) 1.5%float); exact C1.
Qed.

Lemma saveAnnotations_consistent : forall s,
  consistent s -> consistent (fst (saveAnnotations s)).
Proof.
  intros s C. unfold saveAnnotations.
  destruct (activeDoc s) as [active|] eqn:A; [|exact C].
  destruct (activePageIndex s) as [pageIndex|]; [|exact C].
  destruct (currentAnnotations s) as [|ann anns] eqn:An; [exact C|].
  destruct (addTextToPage _ _ _) as [nb|] eqn:X; [|exact C].
  apply addTextToPage_inv in X. destruct X as (ps & ps' & L & Enb & E). subst nb.
  destruct (generateThumbnails (save ps') thumbnailScale) as [ths|] eqn:G;
    [|exact C].
  apply thumbnails_of_saved in G. subst ths.
  pose proof (refreshed_consistent s active ps ps'
                (fun page i => if Nat.eqb i pageIndex then []
                               else textAnnotations page) C A L E) as C1.
  cbv zeta. destruct (loadPDFDocument (save ps')) as [pdfDoc|]; [|exact C1].
  destruct (renderPageToCanvas pdfDoc (pageIndex + 1) 1.5%float); exact C1.
Qed.

Lemma NoDup_map_filter : forall (A B : Type) (f : A -> B) (P : A -> bool) l,
  NoDup (map f l) -> NoDup (map f (filter P l)).
Proof.
  intros A B f P l. induction l as [|a rest IH]; intros N; [constructor|].
  cbn [map] in N. inversion N as [|? ? Hnot N']; subst.
  cbn [filter]. destruct (P a); [|exact (IH N')].
  cbn [map]. constructor; [|exact (IH N')].
  intros Hin. apply Hnot. apply in_map_iff in Hin.
  destruct Hin as (x & Ex & Hx). apply filter_In in Hx.
  apply in_map_iff. exists x. tauto.
Qed.

Lemma deleteDocument_consistent : forall s docId,
  consistent s -> consistent (deleteDocument s docId).
Proof.
  intros s docId [N S]. unfold consistent, deleteDocument. cbn [documents].
  split; [apply NoDup_map_filter, N|].
  apply Forall_forall. intros d Hd. apply filter_In in Hd.
  rewrite Forall_forall in S. apply S. tauto.
Qed.

(** Every action keeps the documents consistent. *)
Lemma step_consistent : forall s s', step s s' -> consistent s -> consistent s'.
Proof.
  intros s s' H C. destruct H.
  - apply handleFileUpload_consistent; assumption.
  - apply handleRotate_consistent, C.
  - apply handleDeletePages_consistent, C.
  - apply handleMovePage_consistent, C.
  - apply applyCrop_consistent, C.
  - apply saveAnnotations_consistent, C.
  - apply deleteDocument_consistent, C.
  - eapply consistent_docs; eassumption.
Qed.

Lemma reachable_consistent : forall s, reachable s -> consistent s.
Proof.
  intros s R. induction R as [|s s' R IH H].
  - split; constructor.
  - exact (step_consistent s s' H IH).
Qed.

(** C7: in every state the editor can reach by uploads, rotations,
    deletions, moves, crops, annotation burn-ins and closing documents
    (with any selection and editor activity in between), each document's
    page array has [pageCount] entries, its buffer holds [pageCount] pages,
    and each entry's thumbnail is the image of the page of the current
    buffer at that position; so the buffer and the page array always
    belong to the same generation, and this still holds after any further
    action. *)
Theorem pages_match_bytes : forall (s : AppState),
  reachable s ->
  (forall d, In d (documents s) ->
     length (pages d) = pageCount d
     /\ pagesIn (arrayBuffer d) = Some (pageCount d)
     /\ synced d)
  /\ (forall s' d', step s s' -> In d' (documents s') ->
        length (pages d') = pageCount d'
        /\ pagesIn (arrayBuffer d') = Some (pageCount d')
        /\ synced d').
Proof.
  assert (K : forall s, consistent s -> forall d, In d (documents s) ->
            length (pages d) = pageCount d
            /\ pagesIn (arrayBuffer d) = Some (pageCount d) /\ synced d).
  { intros s [_ S] d Hd. rewrite Forall_forall in S.
    pose proof (S d Hd) as Sd. destruct Sd as (ps & L & Hn & Hl & Hrest).
    split; [exact Hl|]. split; [|exact (S d Hd)].
    unfold pagesIn, getPageCount, loadPDFDocument. rewrite L. cbn. congruence. }
  intros s R. pose proof (reachable_consistent s R) as C. split.
  - apply K, C.
  - intros s' d' H. apply K. exact (step_consistent s s' H C).
Qed.

Lemma pages_match_bytes_witness :
  (forall d, In d (documents rotatedTen) ->
     length (pages d) = pageCount d
     /\ pagesIn (arrayBuffer d) = Some (pageCount d)
     /\ synced d)
  /\ (forall s' d', step rotatedTen s' -> In d' (documents s') ->
        length (pages d') = pageCount d'
        /\ pagesIn (arrayBuffer d') = Some (pageCount d')
        /\ synced d').
Proof.
  apply (pages_match_bytes rotatedTen).
  apply reach_step with (s := tickedTen).
  - apply reach_step with (s := uploadedTen).
    + apply reach_step with (s := initialState).
      * apply reach_init.
      * apply step_upload. vm_compute. constructor.
        -- intros H. exact H.
        -- constructor.
    + apply step_ui. reflexivity.
  - apply step_rotate.
Defined.

(* ================================================================== *)
(** * The selection filter *)
(* ================================================================== *)

Lemma startsWith_app : forall p r, startsWith (p ++ r) p = true.
Proof.
  induction p as [|a p' IH]; intros r; [destruct r; reflexivity|].
  simpl. rewrite N.eqb_refl. apply IH.
Qed.

Lemma units_are_digits : forall u, forallb isDigit (unitsOfUint u) = true.
Proof. induction u; simpl; auto. Qed.

(** A key of a document whose id holds a hyphen: the segment the handlers
    parse is the id's second segment, whatever the page. *)
Lemma key_of_hyphenated_id : forall docId a b more i,
  split hyphen docId = a :: b :: more ->
  nth_error (split hyphen (pageKey docId i)) 1 = Some b.
Proof.
  intros docId a b more i E. unfold pageKey. cbn [app].
  rewrite split_app, E. reflexivity.
Qed.

Lemma selectedIndices_keys : forall doc (f : nat -> number) idxs,
  (forall i, parseInt (toStringOr (nth_error (split hyphen (pageKey (id doc) i)) 1)) 10
             = f i) ->
  selectedIndices (map (pageKey (id doc)) idxs) doc = map f idxs.
Proof.
  intros doc f idxs H. unfold selectedIndices.
  induction idxs as [|i rest IH]; [reflexivity|].
  cbn [map filter]. unfold pageKey at 1. rewrite startsWith_app.
  cbn [map]. rewrite H, IH. reflexivity.
Qed.

Lemma uuid_segments : forall s,
  isUUID s = true -> exists a b more, split hyphen s = a :: b :: more.
Proof.
  intros s H. unfold isUUID in H.
  destruct (split hyphen s) as [|a [|b more]]; try discriminate. eauto.
Qed.

(** With an id as [crypto.randomUUID] makes them, the selection filter
    returns the same number for every selected page: the decimal prefix of
    the id's second group, or [NaN].  Which pages were ticked is lost. *)
Theorem selection_filter_on_uuid : forall (doc : PDFDocument) (idxs : list nat),
  isUUID (id doc) = true ->
  exists b,
    nth_error (split hyphen (id doc)) 1 = Some b
    /\ selectedIndices (map (pageKey (id doc)) idxs) doc
       = map (fun _ => parseInt b 10) idxs.
Proof.
  intros doc idxs H. destruct (uuid_segments _ H) as (a & b & more & E).
  exists b. split; [rewrite E; reflexivity|].
  apply selectedIndices_keys. intros i.
  rewrite (key_of_hyphenated_id _ a b more i E). reflexivity.
Qed.

Lemma selection_filter_on_uuid_witness :
  exists b,
    nth_error (split hyphen sampleUUID) 1 = Some b
    /\ selectedIndices
         (map (pageKey (id (mkDocument sampleUUID [] NotPdf 0 []))) [2; 4]%nat)
         (mkDocument sampleUUID [] NotPdf 0 [])
       = map (fun _ => parseInt b 10) [2; 4]%nat.
Proof.
  apply (selection_filter_on_uuid (mkDocument sampleUUID [] NotPdf 0 []) [2; 4]%nat).
  reflexivity.
Defined.

(** Reading back the decimal digits of a number gives the number. *)
Lemma parseDigits_uint : forall u acc,
  parseDigits 10 (Some (Z.of_nat acc)) (unitsOfUint u)
  = Some (Z.of_nat (Nat.of_uint_acc u acc)).
Proof.
  induction u; intros acc; cbn [unitsOfUint Nat.of_uint_acc]; [reflexivity|..];
    cbn [parseDigits]; 
    match goal with
    | |- context [digitValue ?c] =>
        let v := eval vm_compute in (digitValue c) in
        change (digitValue c) with v
    end; cbv iota;
    match goal with
    | |- context [?d <? 10] => change (d <? 10) with true
    end; cbv iota;
    rewrite <- IHu; do 2 f_equal; rewrite Nat.tail_mul_spec; lia.
Qed.

Lemma parseDigits_uint_start : forall u,
  u <> Decimal.Nil ->
  parseDigits 10 None (unitsOfUint u) = Some (Z.of_nat (Nat.of_uint u)).
Proof.
  intros u H.
  assert (E : parseDigits 10 None (unitsOfUint u)
              = parseDigits 10 (Some (Z.of_nat 0)) (unitsOfUint u))
    by (destruct u; [contradiction | reflexivity..]).
  rewrite E. apply parseDigits_uint.
Qed.

Lemma to_uint_not_nil : forall n, Nat.to_uint n <> Decimal.Nil.
Proof.
  intros n H.
  pose proof (DecimalNat.Unsigned.to_of (Nat.to_uint n)) as E.
  rewrite DecimalNat.Unsigned.of_to, H in E.
  exact (DecimalFacts.unorm_nonnil _ (eq_sym E)).
Qed.

Lemma parseInt_natToString : forall n, parseInt (natToString n) 10 = Num (Z.of_nat n).
Proof.
  intros n. unfold natToString.
  pose proof (to_uint_not_nil n) as Hn.
  pose proof (units_are_digits (Nat.to_uint n)) as Hd.
  pose proof (parseDigits_uint_start _ Hn) as P.
  rewrite DecimalNat.Unsigned.of_to in P.
  destruct (unitsOfUint (Nat.to_uint n)) as [|d ds] eqn:E.
  - destruct (Nat.to_uint n); first [contradiction | discriminate].
  - cbn [forallb] in Hd. apply andb_true_iff in Hd. destruct Hd as [Hd _].
    unfold parseInt. cbn [trimStart]. rewrite (digit_not_space d Hd).
    replace (N.eqb d hyphen) with false
      by (symmetry; rewrite N.eqb_sym; apply (digit_is_not hyphen d Hd); reflexivity).
    replace (N.eqb d plus) with false
      by (symmetry; rewrite N.eqb_sym; apply (digit_is_not plus d Hd); reflexivity).
    change (10 =? 16) with false. cbv iota. rewrite P.
    f_equal. lia.
Qed.

Lemma plain_id_indices : forall (doc : PDFDocument) (idxs : list nat),
  includes hyphen (id doc) = false ->
  selectedIndices (map (pageKey (id doc)) idxs) doc = asIndices idxs.
Proof.
  intros doc idxs H. unfold asIndices. apply selectedIndices_keys. intros i.
  unfold pageKey. cbn [app].
  rewrite split_app, (split_without _ _ H).
  rewrite (split_without hyphen (natToString i))
    by (apply digits_exclude; [reflexivity | apply units_are_digits]).
  cbn [app nth_error toStringOr]. apply parseInt_natToString.
Qed.

(** With an id that holds no hyphen, the selection filter returns the
    indices of the selected pages, in the order they were ticked. *)
Theorem selection_filter_on_plain_id : forall (doc : PDFDocument) (idxs : list nat),
  includes hyphen (id doc) = false ->
  selectedIndices (map (pageKey (id doc)) idxs) doc = asIndices idxs.
Proof. exact plain_id_indices. Qed.

Lemma selection_filter_on_plain_id_witness :
  selectedIndices (map (pageKey (id (mkDocument (js "doc7") [] NotPdf 0 []))) [2; 4]%nat)
    (mkDocument (js "doc7") [] NotPdf 0 [])
  = asIndices [2; 4]%nat.
Proof.
  apply (selection_filter_on_plain_id (mkDocument (js "doc7") [] NotPdf 0 []) [2; 4]%nat).
  reflexivity.
Defined.

(* ================================================================== *)
(** * The handlers on a document whose id holds no hyphen *)
(* ================================================================== *)

Lemma includesNum_asIndices : forall idxs i,
  includesNum (asIndices idxs) (Num (Z.of_nat i)) = existsb (Nat.eqb i) idxs.
Proof.
  intros idxs i. unfold includesNum, asIndices.
  induction idxs as [|j rest IH]; [reflexivity|].
  cbn [map existsb sameValueZero]. rewrite IH. f_equal.
  destruct (Nat.eqb_spec i j) as [E|E].
  - subst. apply Z.eqb_refl.
  - apply Z.eqb_neq. lia.
Qed.

Lemma existsb_eqb_In : forall idxs i, existsb (Nat.eqb i) idxs = true <-> In i idxs.
Proof.
  intros idxs i. rewrite existsb_exists. split.
  - intros (j & Hj & E). apply Nat.eqb_eq in E. subst. exact Hj.
  - intros H. exists i. split; [exact H | apply Nat.eqb_refl].
Qed.



Lemma find_updated : forall docs a (g : PDFDocument -> PDFDocument) doc,
  find (fun d => eqbStr (id d) a) docs = Some doc ->
  (forall d, id (g d) = id d) ->
  find (fun d => eqbStr (id d) a) (map g docs) = Some (g doc).
Proof.
  induction docs as [|d rest IH]; intros a g doc H G; [discriminate|].
  cbn [map find] in *. rewrite G.
  destruct (eqbStr (id d) a).
  - inversion H. reflexivity.
  - apply IH; assumption.
Qed.

Lemma activeDoc_updateActive : forall s doc f,
  activeDoc s = Some doc ->
  (forall d, id (f d) = id d) ->
  activeDoc (updateActive s doc f) = Some (f doc).
Proof.
  intros s doc f A F. unfold activeDoc in *. cbn [updateActive setDocuments activeDocId documents].
  destruct (activeDocId s) as [a|]; [|discriminate].
  rewrite (find_updated (documents s) a _ doc A).
  - replace (eqbStr (id doc) (id doc)) with true
      by (symmetry; apply eqbStr_eq; reflexivity).
    reflexivity.
  - intros d. destruct (negb (eqbStr (id d) (id doc))); [reflexivity | apply F].
Qed.

Lemma selectedPages_nonempty : forall (docId : jsstring) idxs,
  idxs <> [] -> map (pageKey docId) idxs <> [].
Proof. intros docId [|i rest] H; [contradiction | discriminate]. Qed.

Lemma handleRotate_selected : forall s active degrees,
  activeDoc s = Some active -> selectedPages s <> [] ->
  handleRotate s degrees = handleRotate_try s active degrees.
Proof.
  intros s active degrees A H. unfold handleRotate. rewrite A.
  destruct (selectedPages s); [contradiction | reflexivity].
Qed.

Lemma handleDeletePages_selected : forall s active,
  activeDoc s = Some active -> selectedPages s <> [] ->
  handleDeletePages s = handleDeletePages_body s active.
Proof.
  intros s active A H. unfold handleDeletePages. rewrite A.
  destruct (selectedPages s); [contradiction | reflexivity].
Qed.



Example rotate_scenario_on_plain_id :
  summary (fst (handleRotate plainTen 90))
  = [(10%nat, [0; 0; 90; 0; 90; 0; 0; 0; 0; 0], Some [0; 0; 90; 0; 90; 0; 0; 0; 0; 0])].
Proof. vm_compute. reflexivity. Qed.

(* ---- deletion ---- *)

Lemma remainingIndices_plain : forall doc idxs,
  remainingIndices doc (asIndices idxs)
  = filter (fun i => negb (existsb (Nat.eqb i) idxs)) (seq 0 (length (pages doc))).
Proof.
  intros doc idxs. unfold remainingIndices, mapi. rewrite mapiFrom_index.
  apply filter_ext. intros i. rewrite includesNum_asIndices. reflexivity.
Qed.

(** Copying the pages at the positions a test keeps gives the pages at
    those positions, in order. *)
Lemma copyPages_filter : forall (P : nat -> bool) pre ps,
  copyPages (pre ++ ps) (asIndices (filter P (seq (length pre) (length ps))))
  = Some (map snd (filter (fun ip => P (fst ip))
                     (combine (seq (length pre) (length ps)) ps))).
Proof.
  intros P pre ps. revert pre. induction ps as [|p rest IH]; intros pre.
  - reflexivity.
  - cbn [length seq combine filter fst].
    specialize (IH (pre ++ [p])).
    rewrite <- app_assoc, length_app, Nat.add_1_r in IH. cbn [app] in IH.
    destruct (P (length pre)).
    + cbn [asIndices map copyPages snd].
      change (map (fun i => Num (Z.of_nat i))) with asIndices.
      rewrite pageAt_nat, nth_error_app2 by lia.
      rewrite Nat.sub_diag. cbn [nth_error]. rewrite IH. reflexivity.
    + exact IH.
Qed.

(** Of [n] positions, those outside a set of [k] distinct positions below
    [n] are [n - k]. *)
Lemma remaining_count : forall idxs n,
  NoDup idxs -> (forall i, In i idxs -> (i < n)%nat) ->
  length (filter (fun i => negb (existsb (Nat.eqb i) idxs)) (seq 0 n))
  = (n - length idxs)%nat.
Proof.
  intros idxs n N B.
  pose proof (filter_length (fun i => existsb (Nat.eqb i) idxs) (seq 0 n)) as F.
  rewrite length_seq in F.
  assert (E : length (filter (fun i => existsb (Nat.eqb i) idxs) (seq 0 n))
              = length idxs).
  { apply Permutation_length, NoDup_Permutation.
    - apply NoDup_filter, seq_NoDup.
    - exact N.
    - intros i. rewrite filter_In, in_seq, existsb_eqb_In. split.
      + tauto.
      + intros Hi. specialize (B i Hi). split; [lia | exact Hi]. }
  cbv beta in F. lia.
Qed.

(** On a document whose id holds no hyphen, [handleDeletePages] does what
    the specification expects: deleting a set of [k] pages that is neither
    empty nor everything leaves [pageCount - k] pages, those not selected,
    in their order, with a page array of that length and an empty
    selection; with every page selected the alert is raised and the state
    is unchanged. *)
Theorem delete_on_plain_id :
  forall (s : AppState) (doc : PDFDocument) (idxs : list nat) (ps : list PDFPage),
  activeDoc s = Some doc ->
  load (arrayBuffer doc) = Some ps ->
  length (pages doc) = length ps ->
  pageCount doc = length ps ->
  includes hyphen (id doc) = false ->
  selectedPages s = map (pageKey (id doc)) idxs ->
  idxs <> [] -> NoDup idxs ->
  (forall i, In i idxs -> (i < length ps)%nat) ->
  ((length idxs < length ps)%nat ->
   exists doc',
     snd (handleDeletePages s) = Done
     /\ activeDoc (fst (handleDeletePages s)) = Some doc'
     /\ pageCount doc' = (length ps - length idxs)%nat
     /\ length (pages doc') = pageCount doc'
     /\ load (arrayBuffer doc') = Some (dropAt idxs ps)
     /\ selectedPages (fst (handleDeletePages s)) = [])
  /\ (length idxs = length ps ->
      handleDeletePages s = (s, Alert CannotDeleteAllPages)).
Proof.
  intros s doc idxs ps A L Hl Hc H Sel Hne N B.
  rewrite (handleDeletePages_selected s doc A)
    by (rewrite Sel; apply selectedPages_nonempty, Hne).
  unfold handleDeletePages_body. cbv zeta.
  rewrite Sel, (plain_id_indices doc idxs H).
  assert (La : length (asIndices idxs) = length idxs)
    by (unfold asIndices; apply length_map).
  rewrite La, Hc. split.
  - intros Hlt.
    replace (Nat.eqb (length idxs) (length ps)) with false
      by (symmetry; apply Nat.eqb_neq; lia).
    rewrite remainingIndices_plain, Hl.
    unfold extractPages. rewrite L.
    pose proof (copyPages_filter (fun i => negb (existsb (Nat.eqb i) idxs)) [] ps)
      as CF.
    cbn [app length] in CF. fold (dropAt idxs ps) in CF. rewrite CF. cbn [app].
    rewrite (generateThumbnails_pages (save (dropAt idxs ps)) thumbnailScale
               (dropAt idxs ps) eq_refl).
    cbn [fst snd]. eexists. split; [reflexivity|]. split.
    { change (activeDoc (clearSelection ?x)) with (activeDoc x).
      apply activeDoc_updateActive; [exact A | reflexivity]. }
    cbn [pageCount pages arrayBuffer].
    rewrite (remaining_count idxs (length ps) N B).
    split; [reflexivity|]. split.
    { unfold withThumbnails, mapi.
      rewrite mapiFrom_length. apply initializePages_length. }
    split; reflexivity.
  - intros E. rewrite E, Nat.eqb_refl. reflexivity.
Qed.

Lemma delete_on_plain_id_witness :
  ((length [2; 4]%nat < length tenPages)%nat ->
   exists doc',
     snd (handleDeletePages plainTen) = Done
     /\ activeDoc (fst (handleDeletePages plainTen)) = Some doc'
     /\ pageCount doc' = (length tenPages - length [2; 4]%nat)%nat
     /\ length (pages doc') = pageCount doc'
     /\ load (arrayBuffer doc') = Some (dropAt [2; 4]%nat tenPages)
     /\ selectedPages (fst (handleDeletePages plainTen)) = [])
  /\ (length [2; 4]%nat = length tenPages ->
      handleDeletePages plainTen = (plainTen, Alert CannotDeleteAllPages)).
Proof.
  apply (delete_on_plain_id plainTen
           (mkDocument (js "doc7") (js "report") (PdfBytes tenPages) 10
              (withThumbnails (initializePages 10)
                 (map (fun p => mkImage p thumbnailScale) tenPages)))
           [2; 4]%nat tenPages).
  - vm_compute. reflexivity.
  - reflexivity.
  - reflexivity.
  - reflexivity.
  - reflexivity.
  - vm_compute. reflexivity.
  - discriminate.
  - repeat constructor; simpl; intuition discriminate.
  - simpl. intros i [E|[E|[]]]; subst; lia.
Defined.

Example delete_scenario_on_plain_id :
  map (fun d => (pageCount d, length (pages d), pageContents (arrayBuffer d)))
    (documents (fst (handleDeletePages plainTen)))
  = [(8%nat, 8%nat, Some [0; 1; 3; 5; 6; 7; 8; 9]%N)].
Proof. vm_compute. reflexivity. Qed.

(* ================================================================== *)
(** * Moving a page *)
(* ================================================================== *)

(** With [fromIndex] a page index, the order [handleMovePage] builds is a
    rearrangement of all the page indices. *)
Theorem moveOrder_permutation : forall (n : nat) (fromIndex toIndex : Z),
  0 <= fromIndex -> fromIndex < Z.of_nat n ->
  Permutation (moveOrder n fromIndex toIndex) (asIndices (seq 0 n))
  /\ length (moveOrder n fromIndex toIndex) = n.
Proof.
  intros n fromIndex toIndex H0 Hn.
  assert (P : Permutation (moveOrder n fromIndex toIndex) (asIndices (seq 0 n))).
  { unfold moveOrder, splice. cbv zeta.
    set (o := asIndices (seq 0 n)).
    assert (Lo : length o = n)
      by (unfold o, asIndices; rewrite length_map, length_seq; reflexivity).
    assert (Ek : spliceStart o fromIndex = Z.to_nat fromIndex).
    { unfold spliceStart. cbv zeta.
      replace (fromIndex <? 0) with false by (symmetry; apply Z.ltb_ge; lia).
      rewrite Lo. f_equal. lia. }
    rewrite Ek. set (k := Z.to_nat fromIndex).
    destruct (nth_error o k) as [r|] eqn:E;
      [|apply nth_error_None in E; lia].
    pose proof (skipn_cons_nth _ o k r E) as Sk.
    rewrite Sk. cbn [firstn nth_error indexOr fst app].
    replace (k + 1)%nat with (S k) by lia.
    set (o1 := firstn k o ++ skipn (S k) o).
    set (k' := spliceStart o1 toIndex). rewrite Nat.add_0_r.
    transitivity (r :: o1).
    - symmetry. rewrite <- (firstn_skipn k' o1) at 1. apply Permutation_middle.
    - unfold o1. rewrite <- (firstn_skipn k o) at 3. rewrite Sk.
      apply Permutation_middle. }
  split; [exact P|].
  rewrite (Permutation_length P). unfold asIndices.
  rewrite length_map, length_seq. reflexivity.
Qed.

Lemma moveOrder_permutation_witness :
  Permutation (moveOrder 5 1 3) (asIndices (seq 0 5))
  /\ length (moveOrder 5 1 3) = 5%nat.
Proof. apply (moveOrder_permutation 5 1 3); lia. Defined.

Example moveOrder_examples :
  moveOrder 5 1 3 = asIndices [0; 2; 3; 1; 4]%nat
  /\ moveOrder 5 3 2 = asIndices [0; 1; 3; 2; 4]%nat
  /\ moveOrder 3 0 2 = asIndices [1; 2; 0]%nat
  /\ moveOrder 3 5 0 = [NaN; Num 0; Num 1; Num 2].
Proof. vm_compute. repeat split. Qed.

(* ================================================================== *)
(** * Splitting page by page *)
(* ================================================================== *)

(** With no rule typed, [handleSplit] splits into one buffer per page, and
    merging those buffers in order gives the document's pages back. *)
Theorem split_per_page_round_trip :
  forall (doc : PDFDocument) (typed : jsstring) (ps : list PDFPage),
  load (arrayBuffer doc) = Some ps ->
  length (pages doc) = length ps ->
  truthy (trim typed) = false ->
  length (splitRules typed doc) = length ps
  /\ splitThenMerge (arrayBuffer doc) (splitRules typed doc) = Some (save ps).
Proof.
  intros doc typed ps L Hl T. unfold splitRules. rewrite T. unfold mapi. split.
  - rewrite mapiFrom_length. exact Hl.
  - pose proof (one_per_page_tiles (pages doc) 0) as Ti.
    rewrite Hl in Ti. cbn [Nat.add] in Ti. change (Z.of_nat 0) with 0 in Ti.
    destruct (merge_of_tiling ps _ 0 [] ltac:(lia) Ti) as (buffers & Es & Em).
    unfold splitThenMerge, splitPDF, mergePDFs. rewrite L, Es, Em. reflexivity.
Qed.

Lemma split_per_page_round_trip_witness :
  length (splitRules (js "  ")
            (mkDocument (js "doc7") (js "report") (PdfBytes tenPages) 10
               (initializePages 10)))
  = length tenPages
  /\ splitThenMerge (PdfBytes tenPages)
       (splitRules (js "  ")
          (mkDocument (js "doc7") (js "report") (PdfBytes tenPages) 10
             (initializePages 10)))
     = Some (save tenPages).
Proof.
  apply (split_per_page_round_trip
           (mkDocument (js "doc7") (js "report") (PdfBytes tenPages) 10
              (initializePages 10)) (js "  ") tenPages); reflexivity.
Defined.


(* ================================================================== *)
(** * The scenario: ten pages, pages 3 and 5 ticked *)
(* ================================================================== *)

(** C1 on the code: the document gets the id that [crypto.randomUUID]
    returned; the keys of the two ticked pages are filtered to
    [NaN; NaN]; [handleRotate] runs to its end, and afterwards every page
    has rotation 0 in the page model and angle 0 in the bytes.  The page
    count stays 10. *)
Theorem rotate_scenario_on_uuid :
  isUUID sampleUUID = true
  /\ selectedPages tickedTen = [pageKey sampleUUID 2; pageKey sampleUUID 4]
  /\ option_map (selectedIndices (selectedPages tickedTen)) (activeDoc tickedTen)
     = Some [NaN; NaN]
  /\ snd (handleRotate tickedTen 90) = Done
  /\ summary rotatedTen = [(10%nat, repeat 0 10, Some (repeat 0 10))].
Proof. vm_compute. repeat split. Qed.

(** C2 on the code: with the same two pages ticked, [handleDeletePages]
    runs to its end and the document still has its ten pages, in their
    order; with every page ticked it raises the alert and leaves the state
    as it was. *)
Theorem delete_scenario_on_uuid :
  snd (handleDeletePages tickedTen) = Done
  /\ map (fun d => (pageCount d, length (pages d), pageContents (arrayBuffer d)))
       (documents deletedTen)
     = [(10%nat, 10%nat, Some (map N.of_nat (seq 0 10)))]
  /\ length (selectedPages allTickedTen) = 10%nat
  /\ snd (handleDeletePages allTickedTen) = Alert CannotDeleteAllPages
  /\ fst (handleDeletePages allTickedTen) = allTickedTen.
Proof. vm_compute. repeat split. Qed.

(* ================================================================== *)
(** * Rotation: one page at a time, back and forth *)
(* ================================================================== *)





Lemma occurrences_app : forall j l1 l2,
  occurrences j (l1 ++ l2) = occurrences j l1 + occurrences j l2.
Proof.
  intros j l1 l2. unfold occurrences. rewrite filter_app, length_app. lia.
Qed.


(** [rotatePages] over a list is [rotatePage] for its first index and then
    [rotatePages] for the rest on the buffer that gave; splitting the index
    list anywhere gives two calls in sequence. *)
Theorem rotatePages_one_by_one :
  forall (arrayBuffer : ArrayBuffer) (pageIndex : number) (rest more : list number)
         (degrees : Z),
  rotatePages arrayBuffer (pageIndex :: rest) degrees
  = andThen (rotatePage arrayBuffer pageIndex degrees)
      (fun b => rotatePages b rest degrees)
  /\ rotatePages arrayBuffer (rest ++ more) degrees
     = andThen (rotatePages arrayBuffer rest degrees)
         (fun b => rotatePages b more degrees).
Proof.
  intros arrayBuffer pageIndex rest more degrees.
  unfold rotatePages, rotatePage, andThen.
  destruct (load arrayBuffer) as [ps|]; [|split; reflexivity].
  cbn [load save]. split; [reflexivity|].
  rewrite fold_left_app. reflexivity.
Qed.



(* ================================================================== *)
(** * Extraction and merging *)
(* ================================================================== *)

Lemma copyPages_inRange : forall src indices copied,
  copyPages src indices = Some copied ->
  forallb (inRange (length src)) indices = true.
Proof.
  intros src indices copied H. apply copyPages_spec in H.
  induction H as [|i p rest ps Hi _ IH]; [reflexivity|].
  cbn [forallb]. rewrite (pageAt_inRange src i p Hi), IH. reflexivity.
Qed.


Lemma mergeLoop_saved : forall pss acc,
  mergeLoop acc (map save pss) = Some (acc ++ concat pss).
Proof.
  induction pss as [|ps rest IH]; intros acc; cbn [map mergeLoop concat].
  - rewrite app_nil_r. reflexivity.
  - cbn [load save]. rewrite copyPages_all, IH, app_assoc. reflexivity.
Qed.




(* ================================================================== *)
(** * Splitting by parsed rules *)
(* ================================================================== *)

Lemma parsed_in_bounds : forall input maxPage,
  Forall (inBounds maxPage) (parseMergeRules input maxPage).
Proof.
  intros input maxPage. rewrite parseMergeRules_flat.
  apply Forall_flat_map, Forall_forall. intros part _.
  destruct (parsePart_cases maxPage [] part) as [E | (s & e & E & B & _)];
    rewrite E; [constructor|].
  constructor; [exact B | constructor].
Qed.

Lemma countUp_length : forall k s, length (countUp k s) = k.
Proof. induction k as [|k IH]; intros s; cbn; [reflexivity | rewrite IH; reflexivity]. Qed.

Lemma inBounds_inv : forall maxPage r,
  inBounds maxPage r ->
  exists s e, r = rule s e /\ 0 <= s /\ s <= e /\ e < maxPage.
Proof.
  intros maxPage [[|s] [|e]] H; unfold inBounds in H; cbn in H; try contradiction.
  exists s, e. split; [reflexivity | exact H].
Qed.

Lemma splitLoop_in_bounds : forall ps ranges,
  Forall (inBounds (Z.of_nat (length ps))) ranges ->
  splitLoop ps ranges = Some (map (fun r => save (pagesOfRule ps r)) ranges).
Proof.
  intros ps ranges H. induction H as [|r rest Hr _ IH]; [reflexivity|].
  destruct (inBounds_inv _ r Hr) as (s & e & E & H0 & H1 & H2). subst r.
  cbn [splitLoop map]. unfold rangeIndices, pagesOfRule, rule. cbn [start end_].
  rewrite copyPages_countUp by lia. rewrite IH. reflexivity.
Qed.

(** Every rule list that [parseMergeRules] returns for a document's page
    count is accepted by [splitPDF] on that document: the split returns one
    buffer per rule, in rule order, holding the pages from the rule's start
    to its end, and never an empty or a failed one. *)
Theorem splitPDF_accepts_parsed :
  forall (ps : list PDFPage) (input : jsstring),
  let ranges := parseMergeRules input (Z.of_nat (length ps)) in
  splitPDF (save ps) ranges = Some (map (fun r => save (pagesOfRule ps r)) ranges)
  /\ Forall (fun r => length (pagesOfRule ps r) = ruleSize r /\ (1 <= ruleSize r)%nat)
       ranges.
Proof.
  intros ps input ranges. pose proof (parsed_in_bounds input (Z.of_nat (length ps))) as B.
  fold ranges in B. split.
  - unfold splitPDF. cbn [load save]. apply splitLoop_in_bounds, B.
  - apply Forall_forall. intros r Hr. rewrite Forall_forall in B.
    destruct (inBounds_inv _ r (B r Hr)) as (s & e & E & H0 & H1 & H2). subst r.
    unfold pagesOfRule, ruleSize, rangeIndices, rule. cbn [start end_].
    rewrite countUp_length, length_firstn, length_skipn. lia.
Qed.

(** A split is all or nothing: [splitPDF] returns buffers exactly when every
    index of every rule names a page, and then one buffer per rule. *)
Theorem splitPDF_all_or_nothing :
  forall (ps : list PDFPage) (ranges : list MergeRule),
  ((exists buffers, splitPDF (save ps) ranges = Some buffers)
   <-> forallb (fun r => forallb (inRange (length ps)) (rangeIndices r)) ranges = true)
  /\ (forall buffers, splitPDF (save ps) ranges = Some buffers ->
        length buffers = length ranges).
Proof.
  intros ps ranges. unfold splitPDF. cbn [load save].
  induction ranges as [|r rest [IH1 IH2]].
  - split; [split; [reflexivity | exists []; reflexivity]|].
    intros buffers H. inversion H. reflexivity.
  - cbn [splitLoop forallb]. split; [split|].
    + intros [buffers H].
      destruct (copyPages ps (rangeIndices r)) as [copied|] eqn:Ec; [|discriminate].
      destruct (splitLoop ps rest) as [results|] eqn:Er; [|discriminate].
      rewrite (copyPages_inRange _ _ _ Ec). apply IH1. eauto.
    + intros H. apply andb_true_iff in H. destruct H as [Hr Hrest].
      destruct (copyPages_total ps _ Hr) as [copied Ec].
      destruct (proj2 IH1 Hrest) as [results Er].
      rewrite Ec, Er. eauto.
    + intros buffers H.
      destruct (copyPages ps (rangeIndices r)) as [copied|]; [|discriminate].
      destruct (splitLoop ps rest) as [results|]; [|discriminate].
      inversion H. cbn [length]. rewrite (IH2 results eq_refl). reflexivity.
Qed.

(* ================================================================== *)
(** * The parser and the page count *)
(* ================================================================== *)

Lemma filter_flat_map : forall (A B : Type) (f : B -> bool) (g : A -> list B) l,
  filter f (flat_map g l) = flat_map (fun a => filter f (g a)) l.
Proof.
  intros A B f g l. induction l as [|a rest IH]; [reflexivity|].
  cbn [flat_map]. rewrite filter_app, IH. reflexivity.
Qed.

Lemma parsePart_monotone : forall small large part,
  small <= large ->
  parsePart small [] part
  = filter (fun r => nlt (end_ r) small) (parsePart large [] part).
Proof.
  intros small large part H. unfold parsePart.
  destruct (includes hyphen part); cbv zeta.
  - destruct (nsub (parseInt (toStringOr (nth_error (map trim (split hyphen part)) 0)) 10) 1)
      as [|a]; [reflexivity|].
    destruct (nsub (parseInt (toStringOr (nth_error (map trim (split hyphen part)) 1)) 10) 1)
      as [|b]; [reflexivity|].
    cbn [isNaN negb nge nlt nle andb].
    destruct (0 <=? a); cbn [andb]; [|destruct (b <? large); reflexivity].
    destruct (b <? large) eqn:L, (b <? small) eqn:S, (a <=? b); cbn;
      rewrite ?S; try reflexivity.
    apply Z.ltb_lt in S. apply Z.ltb_ge in L. lia.
  - destruct (nsub (parseInt part 10) 1) as [|a]; [reflexivity|].
    cbn [isNaN negb nge nlt andb].
    destruct (0 <=? a); cbn [andb]; [|reflexivity].
    destruct (a <? large) eqn:L, (a <? small) eqn:S; cbn; rewrite ?S; try reflexivity.
    apply Z.ltb_lt in S. apply Z.ltb_ge in L. lia.
Qed.

(** The rules for a shorter document are those for a longer one that end
    within the shorter: lowering [maxPage] only removes rules, and keeps
    the others as they are and in order.  For a document without pages no
    input gives a rule. *)
Theorem parseMergeRules_monotone :
  forall (input : jsstring) (small large : Z),
  small <= large ->
  parseMergeRules input small
  = filter (fun r => nlt (end_ r) small) (parseMergeRules input large)
  /\ (small <= 0 -> parseMergeRules input small = []).
Proof.
  intros input small large H. split.
  - rewrite !parseMergeRules_flat, filter_flat_map.
    apply flat_map_ext. intros part. apply parsePart_monotone, H.
  - intros H0. pose proof (parsed_in_bounds input small) as B.
    destruct (parseMergeRules input small) as [|r rest]; [reflexivity|].
    inversion B as [|? ? Hr _]; subst.
    destruct (inBounds_inv _ r Hr) as (s & e & _ & A1 & A2 & A3). lia.
Qed.

Lemma parseMergeRules_monotone_witness :
  parseMergeRules (js "1-2,3,4-9,10") 5
  = filter (fun r => nlt (end_ r) 5) (parseMergeRules (js "1-2,3,4-9,10") 10)
  /\ (5 <= 0 -> parseMergeRules (js "1-2,3,4-9,10") 5 = []).
Proof. apply (parseMergeRules_monotone (js "1-2,3,4-9,10") 5 10). lia. Defined.

(* ---- writing rules out and reading them back ---- *)

Lemma natToString_digits : forall n,
  natToString n <> [] /\ forallb isDigit (natToString n) = true.
Proof.
  intros n. unfold natToString. split; [|apply units_are_digits].
  pose proof (to_uint_not_nil n) as H.
  destruct (Nat.to_uint n); first [contradiction | discriminate].
Qed.

Lemma digits_trim : forall ds,
  ds <> [] -> forallb isDigit ds = true ->
  trimStart ds = ds /\ trimEnd ds = ds.
Proof.
  intros ds Hne H. split.
  - destruct ds as [|d r]; [contradiction|]. cbn [forallb] in H.
    apply andb_true_iff in H. destruct H as [Hd _].
    cbn [trimStart]. rewrite (digit_not_space d Hd). reflexivity.
  - rewrite <- (app_nil_r ds) at 1. rewrite trimEnd_digits by exact H.
    cbn [trimEnd]. apply app_nil_r.
Qed.

Lemma parse_ruleText : forall maxPage r,
  inBounds maxPage r -> parseMergeRules (ruleText r) maxPage = [r].
Proof.
  intros maxPage r Hr.
  destruct (inBounds_inv _ r Hr) as (s & e & E & H0 & H1 & H2). subst r.
  unfold ruleText, rule. cbn [start end_].
  destruct (natToString_digits (Z.to_nat (s + 1))) as [N1 D1].
  destruct (natToString_digits (Z.to_nat (e + 1))) as [N2 D2].
  destruct (digits_trim _ N1 D1) as [TS1 TE1].
  destruct (digits_trim _ N2 D2) as [TS2 TE2].
  set (d1 := natToString (Z.to_nat (s + 1))) in *.
  set (d2 := natToString (Z.to_nat (e + 1))) in *.
  assert (P1 : parseInt d1 10 = Num (s + 1))
    by (unfold d1; rewrite parseInt_natToString; f_equal; lia).
  assert (P2 : parseInt d2 10 = Num (e + 1))
    by (unfold d2; rewrite parseInt_natToString; f_equal; lia).
  assert (C1 : includes comma d1 = false) by (apply digits_exclude; auto).
  assert (C2 : includes comma d2 = false) by (apply digits_exclude; auto).
  assert (Y1 : includes hyphen d1 = false) by (apply digits_exclude; auto).
  assert (Y2 : includes hyphen d2 = false) by (apply digits_exclude; auto).
  rewrite parseMergeRules_flat.
  destruct (Z.eqb_spec s e) as [Ese|Ese].
  - subst e. rewrite parts_single by exact C1.
    unfold trim. rewrite TS1, TE1.
    replace (truthy d1) with true by (destruct d1; [contradiction | reflexivity]).
    cbn [flat_map]. rewrite app_nil_r.
    rewrite (parsePart_valid maxPage [] d1 (s + 1) (s + 1)); try lia.
    + cbn [app]. unfold rule. do 3 f_equal; lia.
    + left. auto.
  - rewrite parts_single by (rewrite includes_app, C1; cbn; exact C2).
    cbn [app]. rewrite trim_around_hyphen, TS1, TE2.
    replace (truthy (d1 ++ hyphen :: d2)) with true
      by (destruct d1; reflexivity).
    cbn [flat_map]. rewrite app_nil_r.
    rewrite (parsePart_valid maxPage [] (d1 ++ hyphen :: d2) (s + 1) (e + 1)); try lia.
    + cbn [app]. unfold rule. do 3 f_equal; lia.
    + right. split; [apply includes_mid|].
      exists d1, d2, []. split; [|auto].
      rewrite split_app, (split_without _ _ Y1), (split_without _ _ Y2).
      cbn [app map]. unfold trim. rewrite TS1, TE1, TS2, TE2. reflexivity.
Qed.

Lemma parse_rulesText : forall maxPage rules,
  Forall (inBounds maxPage) rules ->
  parseMergeRules (rulesText rules) maxPage = rules.
Proof.
  intros maxPage rules H. induction H as [|r rest Hr Hrest IH]; [reflexivity|].
  destruct rest as [|r' rest'].
  - cbn [rulesText]. apply parse_ruleText, Hr.
  - change (rulesText (r :: r' :: rest'))
      with (ruleText r ++ comma :: rulesText (r' :: rest')).
    rewrite parseMergeRules_flat, parts_app, flat_map_app.
    rewrite <- !parseMergeRules_flat. rewrite IH, (parse_ruleText maxPage r Hr).
    reflexivity.
Qed.

(** Rules written out as text ([3] for a one-page rule, [4-9] for a range,
    commas between) parse back to the same rules whenever they lie within
    the document; so every list of rules within the document can be typed,
    and writing out what the parser returned and parsing it again changes
    nothing. *)
Theorem parseMergeRules_reads_back :
  forall (maxPage : Z) (input : jsstring),
  (forall rules,
     Forall (inBounds maxPage) rules ->
     parseMergeRules (rulesText rules) maxPage = rules)
  /\ parseMergeRules (rulesText (parseMergeRules input maxPage)) maxPage
     = parseMergeRules input maxPage.
Proof.
  intros maxPage input. split.
  - apply parse_rulesText.
  - apply parse_rulesText, parsed_in_bounds.
Qed.

Lemma parseMergeRules_reads_back_witness :
  parseMergeRules (rulesText [rule 3 8; rule 0 0; rule 2 3]) 10
  = [rule 3 8; rule 0 0; rule 2 3].
Proof.
  apply (proj1 (parseMergeRules_reads_back 10 [])).
  repeat constructor; cbn; lia.
Defined.

(* ================================================================== *)
(** * Burning text in *)
(* ================================================================== *)



Lemma hex_unit : forall c,
  isHex c = true ->
  digitValue c = Some (hexValue c) /\ 0 <= hexValue c < 16
  /\ isWhiteSpace c = false
  /\ N.eqb c hyphen = false /\ N.eqb c plus = false
  /\ N.eqb c 120 = false /\ N.eqb c 88 = false.
Proof.
  intros c H. unfold isHex, hexValue in *.
  destruct (digitValue c) as [v|] eqn:E; [|discriminate].
  apply Z.ltb_lt in H. split; [reflexivity|].
  unfold digitValue in E.
  assert (R : ((48 <= c <= 57)%N \/ (97 <= c <= 102)%N \/ (65 <= c <= 70)%N) /\ 0 <= v).
  { destruct ((48 <=? c)%N && (c <=? 57)%N) eqn:R1.
    - apply andb_true_iff in R1. destruct R1 as [A B]. apply N.leb_le in A, B.
      inversion E. split; [left|]; lia.
    - destruct ((97 <=? c)%N && (c <=? 122)%N) eqn:R2.
      + apply andb_true_iff in R2. destruct R2 as [A B]. apply N.leb_le in A, B.
        inversion E. split; [right; left|]; lia.
      + destruct ((65 <=? c)%N && (c <=? 90)%N) eqn:R3; [|discriminate].
        apply andb_true_iff in R3. destruct R3 as [A B]. apply N.leb_le in A, B.
        inversion E. split; [right; right|]; lia. }
  destruct R as [R V]. split; [lia|].
  unfold isWhiteSpace, whiteSpaceUnits, hyphen, plus. cbn [existsb].
  repeat match goal with
         | |- context [N.eqb c ?k] =>
             let Q := fresh in destruct (N.eqb_spec c k) as [Q|Q]; [lia|]
         end.
  repeat split; reflexivity.
Qed.

Lemma parseInt_hex_pair : forall c1 c2,
  isHex c1 = true -> isHex c2 = true ->
  parseInt [c1; c2] 16 = Num (16 * hexValue c1 + hexValue c2)
  /\ 0 <= 16 * hexValue c1 + hexValue c2 <= 255.
Proof.
  intros c1 c2 H1 H2.
  destruct (hex_unit c1 H1) as (D1 & R1 & W1 & Y1 & P1 & _).
  destruct (hex_unit c2 H2) as (D2 & R2 & _ & _ & _ & X2 & X2').
  split; [|lia].
  unfold parseInt. cbn [trimStart]. rewrite W1, Y1, P1.
  change (16 =? 16) with true. cbv iota.
  assert (S : stripHexPrefix [c1; c2] = [c1; c2]).
  { unfold stripHexPrefix. destruct c1 as [|p]; [reflexivity|].
    rewrite X2, X2'. cbn [orb].
    repeat (destruct p as [p|p|]; try reflexivity). }
  rewrite S. cbn [parseDigits]. rewrite D1.
  replace (hexValue c1 <? 16) with true by (symmetry; apply Z.ltb_lt; lia).
  rewrite D2.
  replace (hexValue c2 <? 16) with true by (symmetry; apply Z.ltb_lt; lia).
  f_equal. lia.
Qed.

(** For a colour written as six hexadecimal digits, with or without the
    leading [#], the three channels [addTextToPage] passes on are the byte
    values of the three digit pairs, each between 0 and 255, over 255. *)
Theorem channels_of_hex_colour :
  forall (c1 c2 c3 c4 c5 c6 : N) (hash : bool),
  forallb isHex [c1; c2; c3; c4; c5; c6] = true ->
  let colour := (if hash then [35%N] else []) ++ [c1; c2; c3; c4; c5; c6] in
  let hexColor := removeFirst (js "#") colour in
  let byte a b := 16 * hexValue a + hexValue b in
  channel hexColor 0 2 = PrimFloat.div (toFloat (Num (byte c1 c2))) 255%float
  /\ channel hexColor 2 4 = PrimFloat.div (toFloat (Num (byte c3 c4))) 255%float
  /\ channel hexColor 4 6 = PrimFloat.div (toFloat (Num (byte c5 c6))) 255%float
  /\ (0 <= byte c1 c2 <= 255 /\ 0 <= byte c3 c4 <= 255 /\ 0 <= byte c5 c6 <= 255).
Proof.
  intros c1 c2 c3 c4 c5 c6 hash H. cbv zeta.
  cbn [forallb] in H.
  repeat (apply andb_true_iff in H; destruct H as [? H]).
  destruct (parseInt_hex_pair c1 c2) as [E1 B1]; [assumption..|].
  destruct (parseInt_hex_pair c3 c4) as [E2 B2]; [assumption..|].
  destruct (parseInt_hex_pair c5 c6) as [E3 B3]; [assumption..|].
  assert (R : removeFirst (js "#")
                ((if hash then [35%N] else []) ++ [c1; c2; c3; c4; c5; c6])
              = [c1; c2; c3; c4; c5; c6]).
  { assert (NH : forall c, isHex c = true -> N.eqb 35 c = false).
    { intros c Hc. destruct (N.eqb_spec 35 c) as [E|E]; [|reflexivity].
      subst c. discriminate Hc. }
    destruct hash; [reflexivity|].
    change (js "#") with [35%N]. cbn [app removeFirst startsWith length skipn].
    rewrite !NH by assumption. reflexivity. }
  rewrite R. unfold channel, substring. cbn [Nat.sub skipn firstn].
  rewrite E1, E2, E3. repeat split; lia.
Qed.

Lemma channels_of_hex_colour_witness :
  let colour := (if true then [35%N] else []) ++ js "1e90ff" in
  let hexColor := removeFirst (js "#") colour in
  let byte a b := 16 * hexValue a + hexValue b in
  channel hexColor 0 2 = PrimFloat.div (toFloat (Num (byte 49%N 101%N))) 255%float
  /\ channel hexColor 2 4 = PrimFloat.div (toFloat (Num (byte 57%N 48%N))) 255%float
  /\ channel hexColor 4 6 = PrimFloat.div (toFloat (Num (byte 102%N 102%N))) 255%float
  /\ (0 <= byte 49%N 101%N <= 255 /\ 0 <= byte 57%N 48%N <= 255
      /\ 0 <= byte 102%N 102%N <= 255).
Proof.
  apply (channels_of_hex_colour 49 101 57 48 102 102 true)%N. reflexivity.
Defined.

(* ================================================================== *)
(** * Cropping again *)
(* ================================================================== *)



(* ================================================================== *)
(** * The selection set *)
(* ================================================================== *)

Lemma setHas_In : forall key s, setHas key s = true <-> In key s.
Proof.
  intros key s. unfold setHas. rewrite existsb_exists. split.
  - intros (k & Hk & E). apply eqbStr_eq in E. subst. exact Hk.
  - intros H. exists key. split; [exact H | apply eqbStr_eq; reflexivity].
Qed.

Lemma bool_same : forall a b : bool, (a = true <-> b = true) -> a = b.
Proof. intros [|] [|] H; try reflexivity; [symmetry|]; apply H; reflexivity. Qed.

Lemma setDelete_In : forall key s k, In k (setDelete key s) <-> In k s /\ k <> key.
Proof.
  intros key s k. unfold setDelete. rewrite filter_In. split; intros [H1 H2].
  - split; [exact H1|]. intros E. subst k.
    rewrite (proj2 (eqbStr_eq key key) eq_refl) in H2. discriminate.
  - split; [exact H1|]. destruct (eqbStr key k) eqn:E; [|reflexivity].
    apply eqbStr_eq in E. congruence.
Qed.

Lemma setDelete_absent : forall key s, ~ In key s -> setDelete key s = s.
Proof.
  intros key s. unfold setDelete. induction s as [|k rest IH]; intros H; [reflexivity|].
  cbn [filter]. destruct (eqbStr key k) eqn:E.
  - apply eqbStr_eq in E. subst. exfalso. apply H. left. reflexivity.
  - cbn [negb]. rewrite IH; [reflexivity|]. intros Hin. apply H. right. exact Hin.
Qed.

(** Ticking a page's box flips that page's membership in the selection and
    nothing else: the keys stay distinct, every other key is in the
    selection exactly if it was, and the documents are not touched.
    Ticking a page that was not selected and then unticking it gives the
    selection back as it was, order included. *)
Theorem togglePageSelection_flips :
  forall (s : AppState) (docId : jsstring) (pageIndex : nat),
  NoDup (selectedPages s) ->
  let key := pageKey docId pageIndex in
  let s' := togglePageSelection s docId pageIndex in
  NoDup (selectedPages s')
  /\ setHas key (selectedPages s') = negb (setHas key (selectedPages s))
  /\ (forall k, k <> key -> setHas k (selectedPages s') = setHas k (selectedPages s))
  /\ documents s' = documents s
  /\ (setHas key (selectedPages s) = false ->
      selectedPages (togglePageSelection s' docId pageIndex) = selectedPages s).
Proof.
  intros s docId pageIndex N. cbv zeta.
  set (key := pageKey docId pageIndex). set (sel := selectedPages s) in *.
  unfold togglePageSelection. fold key. fold sel. cbn [selectedPages documents].
  destruct (setHas key sel) eqn:H.
  - split; [apply NoDup_filter, N|]. split; [|split; [|split]].
    + cbn [negb]. destruct (setHas key (setDelete key sel)) eqn:H'; [|reflexivity].
      apply setHas_In, setDelete_In in H'. destruct H' as [_ H']. congruence.
    + intros k Hk. apply bool_same. rewrite !setHas_In, setDelete_In. tauto.
    + reflexivity.
    + discriminate.
  - assert (Hn : ~ In key sel) by (rewrite <- setHas_In, H; discriminate).
    unfold setAdd. rewrite H.
    assert (Hk : setHas key (sel ++ [key]) = true)
      by (apply setHas_In, in_or_app; right; left; reflexivity).
    split; [|split; [|split; [|split]]].
    + apply NoDup_app; [exact N | repeat constructor; intros [] | ].
      intros k Hin [E|[]]. subst. contradiction.
    + exact Hk.
    + intros k Hne. apply bool_same. rewrite !setHas_In, in_app_iff. cbn [In].
      split; [intros [?|[?|[]]]; [assumption | congruence] | tauto].
    + reflexivity.
    + intros _. rewrite Hk. unfold setDelete. rewrite filter_app.
      fold (setDelete key sel). rewrite (setDelete_absent key sel Hn).
      cbn [filter]. rewrite (proj2 (eqbStr_eq key key) eq_refl). cbn [negb].
      apply app_nil_r.
Qed.

Lemma togglePageSelection_flips_witness :
  let key := pageKey sampleUUID 7 in
  let s' := togglePageSelection tickedTen sampleUUID 7 in
  NoDup (selectedPages s')
  /\ setHas key (selectedPages s') = negb (setHas key (selectedPages tickedTen))
  /\ (forall k, k <> key ->
        setHas k (selectedPages s') = setHas k (selectedPages tickedTen))
  /\ documents s' = documents tickedTen
  /\ (setHas key (selectedPages tickedTen) = false ->
      selectedPages (togglePageSelection s' sampleUUID 7) = selectedPages tickedTen).
Proof.
  apply (togglePageSelection_flips tickedTen sampleUUID 7).
  vm_compute. repeat constructor; simpl; intuition discriminate.
Defined.

Lemma natToString_inj : forall i j, natToString i = natToString j -> i = j.
Proof.
  intros i j H. pose proof (parseInt_natToString i) as Pi.
  rewrite H, parseInt_natToString in Pi. inversion Pi. lia.
Qed.

Lemma pageKey_inj : forall docId i j, pageKey docId i = pageKey docId j -> i = j.
Proof.
  intros docId i j H. unfold pageKey in H. apply app_inv_head in H.
  apply app_inv_head in H. apply natToString_inj, H.
Qed.

Lemma NoDup_map_injective : forall (A B : Type) (f : A -> B) l,
  (forall a b, f a = f b -> a = b) -> NoDup l -> NoDup (map f l).
Proof.
  intros A B f l Hf N. induction N as [|a rest Hnot N IH]; [constructor|].
  cbn [map]. constructor; [|exact IH].
  intros Hin. apply in_map_iff in Hin. destruct Hin as (b & E & Hb).
  apply Hf in E. subst. contradiction.
Qed.

Lemma fold_setAdd : forall keys acc,
  NoDup (acc ++ keys) ->
  fold_left (fun set key => setAdd key set) keys acc = acc ++ keys.
Proof.
  induction keys as [|k rest IH]; intros acc N; cbn [fold_left].
  - rewrite app_nil_r. reflexivity.
  - assert (Hn : ~ In k acc).
    { apply NoDup_remove_2 in N. intros Hin. apply N, in_or_app. left. exact Hin. }
    unfold setAdd at 2.
    replace (setHas k acc) with false
      by (symmetry; destruct (setHas k acc) eqn:E; [|reflexivity];
          apply setHas_In in E; contradiction).
    rewrite IH by (rewrite <- app_assoc; exact N).
    rewrite <- app_assoc. reflexivity.
Qed.

Lemma selectAllPages_keys : forall s doc,
  activeDoc s = Some doc ->
  selectedPages (selectAllPages s)
  = map (pageKey (id doc)) (seq 0 (length (pages doc)))
  /\ activeDoc (selectAllPages s) = Some doc.
Proof.
  intros s doc A. unfold selectAllPages. rewrite A. split.
  - cbn [selectedPages]. unfold mapi.
    assert (E : mapiFrom (fun (_ : PDFPageData) i => pageKey (id doc) i) 0 (pages doc)
                = map (pageKey (id doc)) (seq 0 (length (pages doc)))).
    { rewrite <- (mapiFrom_index _ (pages doc) 0), map_mapiFrom. reflexivity. }
    rewrite E. apply (fold_setAdd _ []). cbn [app].
    apply NoDup_map_injective; [apply pageKey_inj | apply seq_NoDup].
  - exact A.
Qed.

Lemma selectedIndices_length : forall doc idxs,
  length (selectedIndices (map (pageKey (id doc)) idxs) doc) = length idxs.
Proof.
  intros doc idxs. unfold selectedIndices. rewrite length_map.
  induction idxs as [|i rest IH]; [reflexivity|].
  cbn [map filter]. unfold pageKey at 1. rewrite startsWith_app.
  cbn [length]. rewrite IH. reflexivity.
Qed.

(** After "select all", "delete" is always refused, whatever the document's
    id: the alert is raised and the state stays as it is.  (For a document
    without pages "select all" selects nothing and "delete" does nothing.) *)
Theorem selectAll_then_delete :
  forall (s : AppState) (doc : PDFDocument),
  activeDoc s = Some doc ->
  length (pages doc) = pageCount doc ->
  length (selectedPages (selectAllPages s)) = pageCount doc
  /\ handleDeletePages (selectAllPages s)
     = (selectAllPages s,
        if Nat.eqb (pageCount doc) 0 then Returned else Alert CannotDeleteAllPages).
Proof.
  intros s doc A Hl. destruct (selectAllPages_keys s doc A) as [K A'].
  rewrite Hl in K.
  split; [rewrite K, length_map, length_seq; reflexivity|].
  destruct (Nat.eqb_spec (pageCount doc) 0) as [Z0|NZ].
  - unfold handleDeletePages. rewrite A', K, Z0. reflexivity.
  - rewrite (handleDeletePages_selected _ doc A')
      by (rewrite K; destruct (pageCount doc); [contradiction | discriminate]).
    unfold handleDeletePages_body. cbv zeta.
    rewrite K, selectedIndices_length, length_seq, Nat.eqb_refl. reflexivity.
Qed.

Lemma selectAll_then_delete_witness :
  length (selectedPages (selectAllPages uploadedTen)) = 10%nat
  /\ handleDeletePages (selectAllPages uploadedTen)
     = (selectAllPages uploadedTen,
        if Nat.eqb 10 0 then Returned else Alert CannotDeleteAllPages).
Proof.
  apply (selectAll_then_delete uploadedTen
           (mkDocument sampleUUID (js "report") (PdfBytes tenPages) 10
              (withThumbnails (initializePages 10)
                 (map (fun p => mkImage p thumbnailScale) tenPages)))).
  - vm_compute. reflexivity.
  - reflexivity.
Defined.

(* ================================================================== *)
(** * Closing a document *)
(* ================================================================== *)

Lemma eqbStr_neq : forall a b, eqbStr a b = false <-> a <> b.
Proof.
  intros a b. split.
  - intros H E. apply eqbStr_eq in E. congruence.
  - intros H. destruct (eqbStr a b) eqn:E; [|reflexivity].
    apply eqbStr_eq in E. contradiction.
Qed.

(** [deleteDocument] closes every document with the given id and keeps the
    others; afterwards the closed id is not the active one, the active id
    (if any was valid before) is that of a document still open or is
    cleared, and no selection key that starts with the closed id is left,
    while every other key stays. *)
Theorem deleteDocument_closes :
  forall (s : AppState) (docId : jsstring),
  let s' := deleteDocument s docId in
  (forall d, In d (documents s') <-> In d (documents s) /\ id d <> docId)
  /\ activeDocId s' <> Some docId
  /\ ((forall a, activeDocId s = Some a -> exists d, In d (documents s) /\ id d = a) ->
      forall a, activeDocId s' = Some a -> exists d, In d (documents s') /\ id d = a)
  /\ (forall k, In k (selectedPages s')
                <-> In k (selectedPages s) /\ startsWith k docId = false).
Proof.
  intros s docId. cbv zeta. unfold deleteDocument.
  cbn [documents activeDocId selectedPages].
  assert (D : forall d, In d (filter (fun d => negb (eqbStr (id d) docId)) (documents s))
                        <-> In d (documents s) /\ id d <> docId).
  { intros d. rewrite filter_In, negb_true_iff, eqbStr_neq. tauto. }
  split; [exact D|]. split; [|split].
  - destruct (activeDocId s) as [a|]; [|discriminate].
    destruct (eqbStr a docId) eqn:E.
    + destruct (find _ (documents s)) as [d|] eqn:F; [|discriminate].
      apply find_some in F. destruct F as [_ F].
      apply negb_true_iff, eqbStr_neq in F.
      destruct (truthy (id d)); [congruence | discriminate].
    + apply eqbStr_neq in E. congruence.
  - intros V a' H. destruct (activeDocId s) as [a|]; [|discriminate].
    destruct (eqbStr a docId) eqn:E.
    + destruct (find _ (documents s)) as [d|] eqn:F; [|discriminate].
      apply find_some in F. destruct F as [Hin F].
      apply negb_true_iff, eqbStr_neq in F.
      destruct (truthy (id d)); [|discriminate].
      inversion H; subst a'. exists d. split; [apply D; tauto | reflexivity].
    + inversion H; subst a'. apply eqbStr_neq in E.
      destruct (V a eq_refl) as (d & Hin & Hid).
      exists d. split; [apply D; split; [exact Hin | congruence] | exact Hid].
  - intros k. rewrite filter_In, negb_true_iff. tauto.
Qed.

(* ================================================================== *)
(** * Uploading several files *)
(* ================================================================== *)

Lemma uploadLoop_bad : forall randomUUID files k acc,
  (exists file, In file files /\ isPdfFile file = true /\ load (f_bytes file) = None) ->
  uploadLoop randomUUID k files acc = None.
Proof.
  intros randomUUID files. induction files as [|file rest IH]; intros k acc H.
  - destruct H as (f & [] & _).
  - cbn [uploadLoop]. fold (isPdfFile file).
    destruct H as (f & [E|Hin] & Hp & Hl).
    + subst f. rewrite Hp. cbn [negb].
      unfold getPageCount, loadPDFDocument. rewrite Hl. reflexivity.
    + destruct (isPdfFile file); cbn [negb].
      * destruct (getPageCount (f_bytes file)); [|reflexivity].
        destruct (generateThumbnails (f_bytes file) thumbnailScale); [|reflexivity].
        apply IH. eauto.
      * apply IH. eauto.
Qed.

Lemma uploadLoop_good : forall randomUUID files k acc,
  (forall file, In file files -> isPdfFile file = true -> load (f_bytes file) <> None) ->
  exists newDocs,
    uploadLoop randomUUID k files acc = Some (acc ++ newDocs)
    /\ map arrayBuffer newDocs = map f_bytes (filter isPdfFile files)
    /\ map id newDocs = map randomUUID (seq k (length (filter isPdfFile files)))
    /\ Forall (fun d => pagesIn (arrayBuffer d) = Some (pageCount d)
                        /\ length (pages d) = pageCount d) newDocs.
Proof.
  intros randomUUID files. induction files as [|file rest IH]; intros k acc H.
  - exists []. cbn. rewrite app_nil_r. repeat split; constructor.
  - cbn [uploadLoop filter]. fold (isPdfFile file).
    destruct (isPdfFile file) eqn:P; cbn [negb].
    + destruct (load (f_bytes file)) as [ps|] eqn:L;
        [|exfalso; exact (H file (or_introl eq_refl) P L)].
      unfold getPageCount, loadPDFDocument. rewrite L. cbn [option_map].
      rewrite (generateThumbnails_pages _ thumbnailScale ps L).
      set (doc := mkDocument _ _ _ _ _).
      destruct (IH (S k) (acc ++ [doc])) as (more & E & B & I & F).
      { intros f Hin. apply H. right. exact Hin. }
      exists (doc :: more). rewrite E, <- app_assoc. split; [reflexivity|].
      cbn [map length seq]. rewrite B, I. split; [reflexivity|].
      split; [reflexivity|]. constructor; [|exact F].
      unfold doc. cbn [arrayBuffer pageCount pages].
      unfold pagesIn, getPageCount, loadPDFDocument. rewrite L. split; [reflexivity|].
      unfold withThumbnails, mapi. rewrite mapiFrom_length.
      apply initializePages_length.
    + apply IH. intros f Hin. apply H. right. exact Hin.
Qed.

(** An upload is all or nothing: if one of the files offered as PDF cannot
    be read, no document is added and the alert is raised; otherwise the
    files offered as PDF are added after the open documents, in the order
    given, one document per file with that file's bytes, the next ids of
    [crypto.randomUUID] in turn, and a page array as long as the page
    count; files of another type are passed over; the open documents are
    not changed. *)
Theorem handleFileUpload_batch :
  forall (s : AppState) (randomUUID : nat -> jsstring) (files : list File),
  files <> [] ->
  ((exists file, In file files /\ isPdfFile file = true /\ load (f_bytes file) = None) ->
   handleFileUpload s randomUUID files = (s, Alert LoadFailed))
  /\ ((forall file, In file files -> isPdfFile file = true ->
         load (f_bytes file) <> None) ->
      exists newDocs,
        snd (handleFileUpload s randomUUID files) = Done
        /\ documents (fst (handleFileUpload s randomUUID files))
           = documents s ++ newDocs
        /\ map arrayBuffer newDocs = map f_bytes (filter isPdfFile files)
        /\ map id newDocs
           = map randomUUID (seq 0 (length (filter isPdfFile files)))
        /\ Forall (fun d => pagesIn (arrayBuffer d) = Some (pageCount d)
                            /\ length (pages d) = pageCount d) newDocs).
Proof.
  intros s randomUUID files Hne. unfold handleFileUpload.
  destruct files as [|file rest]; [contradiction|]. split.
  - intros H. rewrite (uploadLoop_bad randomUUID _ 0 [] H). reflexivity.
  - intros H. destruct (uploadLoop_good randomUUID _ 0 [] H) as (newDocs & E & B & I & F).
    rewrite E. cbn [app fst snd documents]. exists newDocs. auto.
Qed.

Lemma handleFileUpload_batch_witness :
  ((exists file,
      In file [mkFile (js "image/png") (js "a.png") NotPdf;
               mkFile (js "application/pdf") (js "b.pdf") (PdfBytes letterPage)]
      /\ isPdfFile file = true /\ load (f_bytes file) = None) ->
   handleFileUpload initialState (fun _ => sampleUUID)
     [mkFile (js "image/png") (js "a.png") NotPdf;
      mkFile (js "application/pdf") (js "b.pdf") (PdfBytes letterPage)]
   = (initialState, Alert LoadFailed))
  /\ ((forall file,
         In file [mkFile (js "image/png") (js "a.png") NotPdf;
                  mkFile (js "application/pdf") (js "b.pdf") (PdfBytes letterPage)] ->
         isPdfFile file = true -> load (f_bytes file) <> None) ->
      exists newDocs,
        snd (handleFileUpload initialState (fun _ => sampleUUID)
               [mkFile (js "image/png") (js "a.png") NotPdf;
                mkFile (js "application/pdf") (js "b.pdf") (PdfBytes letterPage)]) = Done
        /\ documents (fst (handleFileUpload initialState (fun _ => sampleUUID)
               [mkFile (js "image/png") (js "a.png") NotPdf;
                mkFile (js "application/pdf") (js "b.pdf") (PdfBytes letterPage)]))
           = documents initialState ++ newDocs
        /\ map arrayBuffer newDocs
           = map f_bytes (filter isPdfFile
               [mkFile (js "image/png") (js "a.png") NotPdf;
                mkFile (js "application/pdf") (js "b.pdf") (PdfBytes letterPage)])
        /\ map id newDocs
           = map (fun _ : nat => sampleUUID)
               (seq 0 (length (filter isPdfFile
                  [mkFile (js "image/png") (js "a.png") NotPdf;
                   mkFile (js "application/pdf") (js "b.pdf") (PdfBytes letterPage)])))
        /\ Forall (fun d => pagesIn (arrayBuffer d) = Some (pageCount d)
                            /\ length (pages d) = pageCount d) newDocs).
Proof.
  apply (handleFileUpload_batch initialState (fun _ => sampleUUID)
           [mkFile (js "image/png") (js "a.png") NotPdf;
            mkFile (js "application/pdf") (js "b.pdf") (PdfBytes letterPage)]).
  discriminate.
Defined.

(* ================================================================== *)
(** * Merging every open document *)
(* ================================================================== *)

Lemma loads_of_consistent : forall docs,
  Forall synced docs ->
  exists pss,
    map arrayBuffer docs = map save pss
    /\ map (@length PDFPage) pss = map pageCount docs.
Proof.
  intros docs H. induction H as [|d rest Hd _ (pss & E & C)].
  - exists []. split; reflexivity.
  - destruct Hd as (ps & L & Hn & _).
    exists (ps :: pss). cbn [map]. rewrite E, C, Hn. split; [|reflexivity].
    f_equal. destruct (arrayBuffer d); [inversion L; reflexivity | discriminate].
Qed.

(** [handleMergeAll] refuses with fewer than two documents; with two or
    more consistent documents it never fails, and what it saves holds the
    pages of the documents one document after the other, in tab order, so
    as many pages as their page counts add up to. *)
Theorem handleMergeAll_saves :
  forall (s : AppState),
  ((length (documents s) < 2)%nat -> handleMergeAll s = NeedTwoDocuments)
  /\ (consistent s -> (2 <= length (documents s))%nat ->
      exists pss,
        map arrayBuffer (documents s) = map save pss
        /\ handleMergeAll s = Merged (save (concat pss))
        /\ pagesIn (save (concat pss)) = Some (list_sum (map pageCount (documents s)))).
Proof.
  intros s. unfold handleMergeAll. split.
  - intros H. replace (length (documents s) <? 2)%nat with true
      by (symmetry; apply Nat.ltb_lt; exact H). reflexivity.
  - intros [_ S] H.
    replace (length (documents s) <? 2)%nat with false
      by (symmetry; apply Nat.ltb_ge; exact H).
    destruct (loads_of_consistent _ S) as (pss & E & C).
    exists pss. split; [exact E|]. cbv zeta. rewrite E.
    unfold mergePDFs. rewrite mergeLoop_saved. cbn [app option_map].
    split; [reflexivity|].
    unfold pagesIn, getPageCount, loadPDFDocument. cbn [load save option_map].
    f_equal. rewrite <- C. clear. induction pss as [|ps rest IH]; [reflexivity|].
    cbn [concat map]. rewrite length_app, IH. reflexivity.
Qed.

(* ================================================================== *)
(** * Splitting the active document *)
(* ================================================================== *)




(* ================================================================== *)
(** * Moving a page, on the bytes *)
(* ================================================================== *)

Lemma removeAt_mid : forall (A : Type) (pre : list A) a post,
  removeAt (length pre) (pre ++ a :: post) = pre ++ post.
Proof.
  intros A pre a post. unfold removeAt.
  induction pre as [|p pre IH]; [reflexivity|].
  cbn [length app firstn skipn]. cbn [skipn] in IH. rewrite IH. reflexivity.
Qed.

Lemma insertAt_mid : forall (A : Type) (pre : list A) a post,
  insertAt (length pre) a (pre ++ post) = pre ++ a :: post.
Proof.
  intros A pre a post. unfold insertAt.
  induction pre as [|p pre IH]; [reflexivity|].
  cbn [length app firstn skipn]. rewrite IH. reflexivity.
Qed.

Lemma nth_error_mid : forall (A : Type) (pre : list A) a post,
  nth_error (pre ++ a :: post) (length pre) = Some a.
Proof. intros A pre a post. induction pre as [|p pre IH]; [reflexivity | exact IH]. Qed.

Lemma moveList_split : forall (A : Type) (pre : list A) a post to,
  (to <= length (pre ++ post))%nat ->
  moveList (pre ++ a :: post) (length pre) to
  = firstn to (pre ++ post) ++ a :: skipn to (pre ++ post)
  /\ length (firstn to (pre ++ post)) = to.
Proof.
  intros A pre a post to H. unfold moveList.
  rewrite nth_error_mid, removeAt_mid. split; [reflexivity|].
  rewrite length_firstn. lia.
Qed.

Lemma moveList_lands : forall (A : Type) (l : list A) from to,
  (from < length l)%nat -> (to < length l)%nat ->
  nth_error (moveList l from to) to = nth_error l from.
Proof.
  intros A l from to Hf Ht.
  destruct (nth_error l from) as [a|] eqn:E; [|apply nth_error_None in E; lia].
  destruct (nth_error_split l from E) as (pre & post & -> & <-).
  rewrite length_app in Ht. cbn [length] in Ht.
  destruct (moveList_split A pre a post to) as [M L];
    [rewrite length_app; lia|].
  rewrite M. rewrite <- L at 3. apply nth_error_mid.
Qed.

Lemma moveList_back : forall (A : Type) (l : list A) from to,
  (from < length l)%nat -> (to < length l)%nat ->
  moveList (moveList l from to) to from = l.
Proof.
  intros A l from to Hf Ht.
  destruct (nth_error l from) as [a|] eqn:E; [|apply nth_error_None in E; lia].
  destruct (nth_error_split l from E) as (pre & post & -> & <-).
  rewrite length_app in Ht. cbn [length] in Ht.
  destruct (moveList_split A pre a post to) as [M L];
    [rewrite length_app; lia|].
  rewrite M.
  assert (FS : firstn to (pre ++ post) ++ skipn to (pre ++ post) = pre ++ post)
    by apply firstn_skipn.
  remember (firstn to (pre ++ post)) as pre' eqn:Ep.
  remember (skipn to (pre ++ post)) as post' eqn:Eq.
  clear Ep Eq M. subst to. unfold moveList.
  rewrite nth_error_mid, removeAt_mid, FS. apply insertAt_mid.
Qed.

Lemma moveList_perm : forall (A : Type) (l : list A) from to,
  Permutation (moveList l from to) l.
Proof.
  intros A l from to. unfold moveList.
  destruct (nth_error l from) as [a|] eqn:E; [|reflexivity].
  destruct (nth_error_split l from E) as (pre & post & -> & <-).
  rewrite removeAt_mid. unfold insertAt.
  transitivity (a :: pre ++ post).
  - symmetry. rewrite <- (firstn_skipn to (pre ++ post)) at 1.
    apply Permutation_middle.
  - apply Permutation_middle.
Qed.

Lemma map_moveList : forall (A B : Type) (f : A -> B) l from to,
  map f (moveList l from to) = moveList (map f l) from to.
Proof.
  intros A B f l from to. unfold moveList. rewrite nth_error_map.
  destruct (nth_error l from) as [a|]; [|reflexivity].
  cbn [option_map]. unfold insertAt, removeAt.
  rewrite map_app. cbn [map].
  rewrite !firstn_map, !skipn_map, <- !map_app, !firstn_map, !skipn_map.
  reflexivity.
Qed.

Lemma spliceStart_in : forall (A : Type) (l : list A) k,
  (k <= length l)%nat -> spliceStart l (Z.of_nat k) = k.
Proof.
  intros A l k H. unfold spliceStart. cbv zeta.
  replace (Z.of_nat k <? 0) with false by (symmetry; apply Z.ltb_ge; lia).
  rewrite Z.min_l by lia. apply Nat2Z.id.
Qed.

Lemma moveOrder_moveList : forall n from to,
  (from < n)%nat -> (to < n)%nat ->
  moveOrder n (Z.of_nat from) (Z.of_nat to) = asIndices (moveList (seq 0 n) from to).
Proof.
  intros n from to Hf Ht. unfold asIndices. rewrite map_moveList.
  fold (asIndices (seq 0 n)). unfold moveOrder, splice. cbv zeta.
  set (o := asIndices (seq 0 n)).
  assert (Lo : length o = n)
    by (unfold o, asIndices; rewrite length_map, length_seq; reflexivity).
  rewrite (spliceStart_in _ o from) by lia.
  destruct (nth_error o from) as [r|] eqn:E; [|apply nth_error_None in E; lia].
  destruct (nth_error_split o from E) as (pre & post & Eo & Lp).
  rewrite Eo. rewrite <- Lp.
  replace (skipn (length pre) (pre ++ r :: post)) with (r :: post)
    by (clear; induction pre as [|p pre IH]; [reflexivity | exact IH]).
  replace (length pre + 1)%nat with (S (length pre)) by lia.
  fold (removeAt (length pre) (pre ++ r :: post)).
  cbn [firstn nth_error indexOr fst app].
  fold (removeAt (length pre) (pre ++ r :: post)).
  rewrite removeAt_mid.
  assert (Lpp : (to <= length (pre ++ post))%nat).
  { apply (f_equal (@length number)) in Eo. rewrite Lo in Eo.
    rewrite length_app in *. cbn [length] in Eo. lia. }
  rewrite (spliceStart_in _ (pre ++ post) to Lpp), Nat.add_0_r.
  destruct (moveList_split _ pre r post to Lpp) as [M _]. rewrite M. reflexivity.
Qed.

Lemma map_nth_all : forall (A : Type) (d : A) l,
  map (fun i => nth i l d) (seq 0 (length l)) = l.
Proof.
  intros A d l. induction l as [|a rest IH]; [reflexivity|].
  cbn [length seq map nth]. f_equal.
  rewrite <- seq_shift, map_map. exact IH.
Qed.

Lemma copyPages_nth : forall ps d l,
  Forall (fun i => (i < length ps)%nat) l ->
  copyPages ps (asIndices l) = Some (map (fun i => nth i ps d) l).
Proof.
  intros ps d l H. induction H as [|i rest Hi _ IH]; [reflexivity|].
  cbn [asIndices map copyPages]. fold (asIndices rest). rewrite IH.
  unfold pageAt.
  replace (Z.of_nat i <? 0) with false by (symmetry; apply Z.ltb_ge; lia).
  rewrite Nat2Z.id, (nth_error_nth' ps d Hi). reflexivity.
Qed.

Lemma reorderPages_moveOrder : forall ps from to,
  (from < length ps)%nat -> (to < length ps)%nat ->
  reorderPages (save ps) (moveOrder (length ps) (Z.of_nat from) (Z.of_nat to))
  = Some (save (moveList ps from to)).
Proof.
  intros ps from to Hf Ht. rewrite (moveOrder_moveList _ _ _ Hf Ht).
  unfold reorderPages. cbn [load save].
  destruct ps as [|d rest] eqn:Eps; [cbn [length] in Hf; lia|]. rewrite <- Eps in *.
  rewrite (copyPages_nth ps d).
  - rewrite map_moveList, map_nth_all. reflexivity.
  - apply Forall_forall. intros i Hi.
    apply (Permutation_in _ (moveList_perm _ (seq 0 (length ps)) from to)) in Hi.
    apply in_seq in Hi. lia.
Qed.

Lemma handleMovePage_bytes : forall s doc ps from to,
  activeDoc s = Some doc ->
  load (arrayBuffer doc) = Some ps ->
  length (pages doc) = length ps ->
  (from < length ps)%nat -> (to < length ps)%nat -> from <> to ->
  snd (handleMovePage s (Z.of_nat from) (Z.of_nat to)) = Done
  /\ exists doc',
       activeDoc (fst (handleMovePage s (Z.of_nat from) (Z.of_nat to))) = Some doc'
       /\ arrayBuffer doc' = save (moveList ps from to)
       /\ pageCount doc' = pageCount doc
       /\ length (pages doc') = pageCount doc.
Proof.
  intros s doc ps from to A L Lp Hf Ht Hne. unfold handleMovePage. rewrite A.
  replace (Z.of_nat from =? Z.of_nat to) with false
    by (symmetry; apply Z.eqb_neq; lia).
  cbv zeta. rewrite Lp.
  assert (Eb : arrayBuffer doc = save ps)
    by (destruct (arrayBuffer doc); [inversion L; reflexivity | discriminate]).
  rewrite Eb, (reorderPages_moveOrder ps from to Hf Ht).
  rewrite (generateThumbnails_pages (save (moveList ps from to)) thumbnailScale
             (moveList ps from to) eq_refl).
  cbn [fst snd]. split; [reflexivity|].
  eexists. split; [apply activeDoc_updateActive; [exact A | reflexivity]|].
  cbn [arrayBuffer pageCount pages]. split; [reflexivity|]. split; [reflexivity|].
  unfold withThumbnails, mapi. rewrite mapiFrom_length. apply initializePages_length.
Qed.

(** Moving a page of the active document from one position to another
    always succeeds; the new file holds the same pages with the moved page
    at the target position and the others in their old order, and moving
    the page back gives the file as it was. *)
Theorem handleMovePage_there_and_back :
  forall (s : AppState) (doc : PDFDocument) (from to : nat),
  consistent s -> activeDoc s = Some doc ->
  (from < pageCount doc)%nat -> (to < pageCount doc)%nat -> from <> to ->
  exists ps,
    load (arrayBuffer doc) = Some ps
    /\ snd (handleMovePage s (Z.of_nat from) (Z.of_nat to)) = Done
    /\ activeBytes (fst (handleMovePage s (Z.of_nat from) (Z.of_nat to)))
       = Some (save (moveList ps from to))
    /\ nth_error (moveList ps from to) to = nth_error ps from
    /\ removeAt to (moveList ps from to) = removeAt from ps
    /\ activeBytes
         (fst (handleMovePage
                 (fst (handleMovePage s (Z.of_nat from) (Z.of_nat to)))
                 (Z.of_nat to) (Z.of_nat from)))
       = Some (save ps).
Proof.
  intros s doc from to C A Hf Ht Hne.
  destruct (synced_of_active s doc C A) as (ps & L & Hn & Hl & _).
  rewrite <- Hn in Hf, Ht.
  exists ps. split; [exact L|].
  destruct (handleMovePage_bytes s doc ps from to A L) as (D & doc' & A' & B' & N' & P');
    try assumption; [congruence|].
  split; [exact D|]. unfold activeBytes. rewrite A'. cbn [option_map].
  split; [rewrite B'; reflexivity|].
  split; [apply moveList_lands; assumption|].
  assert (Lm : length (moveList ps from to) = length ps)
    by (apply Permutation_length, moveList_perm).
  split.
  - destruct (nth_error ps from) as [a|] eqn:E; [|apply nth_error_None in E; lia].
    destruct (nth_error_split ps from E) as (pre & post & -> & <-).
    rewrite length_app in Ht. cbn [length] in Ht.
    destruct (moveList_split _ pre a post to) as [M Lt]; [rewrite length_app; lia|].
    rewrite M, removeAt_mid.
    assert (FS : firstn to (pre ++ post) ++ skipn to (pre ++ post) = pre ++ post)
      by apply firstn_skipn.
    remember (firstn to (pre ++ post)) as pre' eqn:Ep.
    remember (skipn to (pre ++ post)) as post' eqn:Eq.
    rewrite <- Lt. rewrite removeAt_mid. exact FS.
  - destruct (handleMovePage_bytes (fst (handleMovePage s (Z.of_nat from) (Z.of_nat to)))
                doc' (moveList ps from to) to from A')
      as (_ & doc'' & A'' & B'' & _); try (rewrite Lm; assumption);
      [rewrite B'; reflexivity | congruence | congruence|].
    rewrite A''. cbn [option_map]. rewrite B'', moveList_back by assumption.
    reflexivity.
Qed.

Lemma handleMovePage_there_and_back_witness :
  exists ps,
    load (arrayBuffer reportTen) = Some ps
    /\ snd (handleMovePage uploadedTen (Z.of_nat 1) (Z.of_nat 2)) = Done
    /\ activeBytes (fst (handleMovePage uploadedTen (Z.of_nat 1) (Z.of_nat 2)))
       = Some (save (moveList ps 1 2))
    /\ nth_error (moveList ps 1 2) 2 = nth_error ps 1
    /\ removeAt 2 (moveList ps 1 2) = removeAt 1 ps
    /\ activeBytes
         (fst (handleMovePage
                 (fst (handleMovePage uploadedTen (Z.of_nat 1) (Z.of_nat 2)))
                 (Z.of_nat 2) (Z.of_nat 1)))
       = Some (save ps).
Proof.
  apply (handleMovePage_there_and_back uploadedTen reportTen 1 2).
  - split.
    + vm_compute. constructor; [intros H; exact H | constructor].
    + constructor; [|constructor]. exists tenPages. vm_compute.
      repeat split; reflexivity.
  - vm_compute. reflexivity.
  - vm_compute. lia.
  - vm_compute. lia.
  - discriminate.
Defined.

(* ================================================================== *)
(** * Ticked pages of a document named by a UUID *)
(* ================================================================== *)

Lemma map_const_length : forall (A B : Type) (c : B) (l l' : list A),
  length l = length l' -> map (fun _ => c) l = map (fun _ => c) l'.
Proof.
  intros A B c l. induction l as [|a rest IH]; intros [|a' rest'] H;
    try discriminate H; [reflexivity|].
  cbn [map]. f_equal. apply IH. inversion H. reflexivity.
Qed.

(** For a document whose id is a UUID, which pages are ticked makes no
    difference to [handleRotate] and [handleDeletePages], only how many:
    two selections of the same size leave the same documents and raise
    the same alert. *)
Theorem uuid_selection_only_counts :
  forall (s : AppState) (doc : PDFDocument) (idxs idxs' : list nat) (degrees : Z),
  activeDoc s = Some doc ->
  isUUID (id doc) = true ->
  length idxs = length idxs' ->
  documents (fst (handleRotate (withSelection s (map (pageKey (id doc)) idxs)) degrees))
  = documents (fst (handleRotate (withSelection s (map (pageKey (id doc)) idxs')) degrees))
  /\ snd (handleRotate (withSelection s (map (pageKey (id doc)) idxs)) degrees)
     = snd (handleRotate (withSelection s (map (pageKey (id doc)) idxs')) degrees)
  /\ documents (fst (handleDeletePages (withSelection s (map (pageKey (id doc)) idxs))))
     = documents (fst (handleDeletePages (withSelection s (map (pageKey (id doc)) idxs'))))
  /\ snd (handleDeletePages (withSelection s (map (pageKey (id doc)) idxs)))
     = snd (handleDeletePages (withSelection s (map (pageKey (id doc)) idxs'))).
Proof.
  intros s doc idxs idxs' degrees A U Hlen.
  destruct (uuid_segments _ U) as (a & b & more & E).
  assert (K : forall l, selectedIndices (map (pageKey (id doc)) l) doc
                        = map (fun _ => parseInt b 10) l).
  { intros l. apply selectedIndices_keys. intros i.
    rewrite (key_of_hyphenated_id _ a b more i E). reflexivity. }
  pose proof (map_const_length nat number (parseInt b 10) idxs idxs' Hlen) as Same.
  destruct idxs as [|i idxs]; destruct idxs' as [|i' idxs']; try discriminate Hlen.
  - repeat split; reflexivity.
  - pose proof (K (i :: idxs)) as K1. pose proof (K (i' :: idxs')) as K2.
    rewrite <- Same in K2.
    set (k1 := map (pageKey (id doc)) (i :: idxs)) in *.
    set (k2 := map (pageKey (id doc)) (i' :: idxs')) in *.
    assert (A1 : activeDoc (withSelection s k1) = Some doc) by exact A.
    assert (A2 : activeDoc (withSelection s k2) = Some doc) by exact A.
    assert (N1 : selectedPages (withSelection s k1) <> []) by (cbn; discriminate).
    assert (N2 : selectedPages (withSelection s k2) <> []) by (cbn; discriminate).
    rewrite (handleRotate_selected _ doc degrees A1 N1),
            (handleRotate_selected _ doc degrees A2 N2),
            (handleDeletePages_selected _ doc A1 N1),
            (handleDeletePages_selected _ doc A2 N2).
    unfold handleRotate_try, handleDeletePages_body. cbv zeta.
    change (selectedPages (withSelection s k1)) with k1.
    change (selectedPages (withSelection s k2)) with k2.
    rewrite K1, K2.
    set (sel := map (fun _ : nat => parseInt b 10) (i :: idxs)).
    split; [|split; [|split]].
    + destruct (rotatePages (arrayBuffer doc) sel degrees) as [nb|]; [|reflexivity].
      destruct (generateThumbnails nb thumbnailScale); reflexivity.
    + destruct (rotatePages (arrayBuffer doc) sel degrees) as [nb|]; [|reflexivity].
      destruct (generateThumbnails nb thumbnailScale); reflexivity.
    + destruct (Nat.eqb (length sel) (pageCount doc)); [reflexivity|].
      destruct (extractPages _ _) as [nb|]; [|reflexivity].
      destruct (generateThumbnails nb thumbnailScale); reflexivity.
    + destruct (Nat.eqb (length sel) (pageCount doc)); [reflexivity|].
      destruct (extractPages _ _) as [nb|]; [|reflexivity].
      destruct (generateThumbnails nb thumbnailScale); reflexivity.
Qed.

Lemma uuid_selection_only_counts_witness :
  documents (fst (handleRotate
     (withSelection uploadedTen (map (pageKey (id reportTen)) [2; 4]%nat)) 90))
  = documents (fst (handleRotate
     (withSelection uploadedTen (map (pageKey (id reportTen)) [0; 9]%nat)) 90))
  /\ snd (handleRotate
       (withSelection uploadedTen (map (pageKey (id reportTen)) [2; 4]%nat)) 90)
     = snd (handleRotate
         (withSelection uploadedTen (map (pageKey (id reportTen)) [0; 9]%nat)) 90)
  /\ documents (fst (handleDeletePages
       (withSelection uploadedTen (map (pageKey (id reportTen)) [2; 4]%nat))))
     = documents (fst (handleDeletePages
         (withSelection uploadedTen (map (pageKey (id reportTen)) [0; 9]%nat))))
  /\ snd (handleDeletePages
       (withSelection uploadedTen (map (pageKey (id reportTen)) [2; 4]%nat)))
     = snd (handleDeletePages
         (withSelection uploadedTen (map (pageKey (id reportTen)) [0; 9]%nat))).
Proof.
  apply (uuid_selection_only_counts uploadedTen reportTen [2; 4]%nat [0; 9]%nat 90).
  - vm_compute. reflexivity.
  - vm_compute. reflexivity.
  - reflexivity.
Defined.

(* ================================================================== *)
(** * Saving the typed texts and applying the crop, once *)
(* ================================================================== *)

(** When [saveAnnotations] succeeds, the active document's new bytes are
    those [addTextToPage] made from the old bytes, the page in the editor
    and the pending texts; the pending list is then empty, so saving again
    returns at once and draws nothing a second time. *)
Theorem saveAnnotations_once :
  forall (s : AppState),
  snd (saveAnnotations s) = Done ->
  (exists doc i,
     activeDoc s = Some doc /\ activePageIndex s = Some i
     /\ activeBytes (fst (saveAnnotations s))
        = addTextToPage (arrayBuffer doc) i (currentAnnotations s))
  /\ currentAnnotations (fst (saveAnnotations s)) = []
  /\ saveAnnotations (fst (saveAnnotations s))
     = (fst (saveAnnotations s), Returned).
Proof.
  intros s H. unfold saveAnnotations in *.
  destruct (activeDoc s) as [doc|] eqn:A; [|discriminate H].
  destruct (activePageIndex s) as [i|] eqn:P; [|discriminate H].
  destruct (currentAnnotations s) as [|t ts] eqn:T; [discriminate H|].
  destruct (addTextToPage (arrayBuffer doc) i (t :: ts)) as [nb|] eqn:AT;
    [|discriminate H].
  destruct (generateThumbnails nb thumbnailScale) as [ths|]; [|discriminate H].
  cbv zeta in *.
  destruct (loadPDFDocument nb) as [pdf|]; [|discriminate H].
  destruct (renderPageToCanvas pdf (i + 1) 1.5%float); [|discriminate H].
  cbn [fst snd currentAnnotations]. split; [|split; [reflexivity|]].
  - exists doc, i. split; [reflexivity|]. split; [reflexivity|].
    rewrite AT. unfold activeBytes.
    match goal with
    | |- option_map _ (activeDoc (mkState (documents ?s1) _ _ _ _ _ _ _ _)) = _ =>
        change (option_map arrayBuffer (activeDoc s1) = Some nb)
    end.
    rewrite activeDoc_updateActive; [reflexivity | exact A | reflexivity].
  - match goal with
    | |- context [activeDoc ?s'] => destruct (activeDoc s'); [|reflexivity]
    end.
    cbn [activePageIndex]. destruct (activePageIndex _); reflexivity.
Qed.

Lemma saveAnnotations_once_witness :
  (exists doc i,
     activeDoc editingTen = Some doc /\ activePageIndex editingTen = Some i
     /\ activeBytes (fst (saveAnnotations editingTen))
        = addTextToPage (arrayBuffer doc) i (currentAnnotations editingTen))
  /\ currentAnnotations (fst (saveAnnotations editingTen)) = []
  /\ saveAnnotations (fst (saveAnnotations editingTen))
     = (fst (saveAnnotations editingTen), Returned).
Proof. apply (saveAnnotations_once editingTen). vm_compute. reflexivity. Defined.

(** When [applyCrop] succeeds, the active document's new bytes are those
    [cropPage] made from the old bytes, the page in the editor, the drawn
    rectangle and the preview size; the rectangle is then cleared, so
    applying again returns at once. *)
Theorem applyCrop_once :
  forall (s : AppState),
  snd (applyCrop s) = Done ->
  (exists doc i box,
     activeDoc s = Some doc /\ activePageIndex s = Some i /\ cropBox s = Some box
     /\ activeBytes (fst (applyCrop s))
        = cropPage (arrayBuffer doc) i box (fst (pageSize s)) (snd (pageSize s)))
  /\ cropBox (fst (applyCrop s)) = None
  /\ applyCrop (fst (applyCrop s)) = (fst (applyCrop s), Returned).
Proof.
  intros s H. unfold applyCrop in *.
  destruct (activeDoc s) as [doc|] eqn:A; [|discriminate H].
  destruct (activePageIndex s) as [i|] eqn:P; [|discriminate H].
  destruct (cropBox s) as [box|] eqn:B; [|discriminate H].
  destruct (cropPage (arrayBuffer doc) i box (fst (pageSize s)) (snd (pageSize s)))
    as [nb|] eqn:AT; [|discriminate H].
  destruct (generateThumbnails nb thumbnailScale) as [ths|]; [|discriminate H].
  cbv zeta in *.
  destruct (loadPDFDocument nb) as [pdf|]; [|discriminate H].
  destruct (renderPageToCanvas pdf (i + 1) 1.5%float); [|discriminate H].
  cbn [fst snd cropBox]. split; [|split; [reflexivity|]].
  - exists doc, i, box. split; [reflexivity|]. split; [reflexivity|].
    split; [reflexivity|]. rewrite AT. unfold activeBytes.
    match goal with
    | |- option_map _ (activeDoc (mkState (documents ?s1) _ _ _ _ _ _ _ _)) = _ =>
        change (option_map arrayBuffer (activeDoc s1) = Some nb)
    end.
    rewrite activeDoc_updateActive; [reflexivity | exact A | reflexivity].
  - match goal with
    | |- context [activeDoc ?s'] => destruct (activeDoc s'); [|reflexivity]
    end.
    cbn [activePageIndex]. destruct (activePageIndex _); reflexivity.
Qed.

Lemma applyCrop_once_witness :
  (exists doc i box,
     activeDoc editingTen = Some doc /\ activePageIndex editingTen = Some i
     /\ cropBox editingTen = Some box
     /\ activeBytes (fst (applyCrop editingTen))
        = cropPage (arrayBuffer doc) i box
            (fst (pageSize editingTen)) (snd (pageSize editingTen)))
  /\ cropBox (fst (applyCrop editingTen)) = None
  /\ applyCrop (fst (applyCrop editingTen)) = (fst (applyCrop editingTen), Returned).
Proof. apply (applyCrop_once editingTen). vm_compute. reflexivity. Defined.

(* ================================================================== *)
(** * The tab bar *)
(* ================================================================== *)

Lemma updateActive_tabs : forall s active f,
  (forall d, id (f d) = id d) -> tabs (updateActive s active f) = tabs s.
Proof.
  intros s active f H. unfold tabs, updateActive, setDocuments.
  cbn [documents activeDocId]. f_equal. rewrite map_map.
  apply map_ext. intros d. destruct (negb (eqbStr (id d) (id active))); [reflexivity|].
  apply H.
Qed.

Ltac tabs_kept :=
  unfold tabs, clearSelection, updateActive, setDocuments;
  cbn [fst documents activeDocId]; f_equal; rewrite map_map;
  apply map_ext; intros ?d; destruct (negb _); reflexivity.

Lemma handleRotate_tabs : forall s degrees, tabs (fst (handleRotate s degrees)) = tabs s.
Proof.
  intros s degrees. unfold handleRotate.
  destruct (activeDoc s) as [active|]; [|reflexivity].
  destruct (selectedPages s); [reflexivity|].
  unfold handleRotate_try. cbv zeta.
  destruct (rotatePages _ _ _) as [nb|]; [|reflexivity].
  destruct (generateThumbnails nb thumbnailScale); [|reflexivity].
  apply updateActive_tabs. reflexivity.
Qed.

Lemma handleDeletePages_tabs : forall s, tabs (fst (handleDeletePages s)) = tabs s.
Proof.
  intros s. unfold handleDeletePages.
  destruct (activeDoc s) as [active|]; [|reflexivity].
  destruct (selectedPages s); [reflexivity|].
  unfold handleDeletePages_body. cbv zeta.
  destruct (Nat.eqb _ _); [reflexivity|].
  destruct (extractPages _ _) as [nb|]; [|reflexivity].
  destruct (generateThumbnails nb thumbnailScale); [|reflexivity].
  tabs_kept.
Qed.

Lemma handleMovePage_tabs : forall s fromIndex toIndex,
  tabs (fst (handleMovePage s fromIndex toIndex)) = tabs s.
Proof.
  intros s fromIndex toIndex. unfold handleMovePage.
  destruct (activeDoc s) as [active|]; [|reflexivity].
  destruct (fromIndex =? toIndex); [reflexivity|]. cbv zeta.
  destruct (reorderPages _ _) as [nb|]; [|reflexivity].
  destruct (generateThumbnails nb thumbnailScale); [|reflexivity].
  apply updateActive_tabs. reflexivity.
Qed.

Lemma applyCrop_tabs : forall s, tabs (fst (applyCrop s)) = tabs s.
Proof.
  intros s. unfold applyCrop.
  destruct (activeDoc s) as [active|]; [|reflexivity].
  destruct (activePageIndex s) as [i|]; [|reflexivity].
  destruct (cropBox s) as [box|]; [|reflexivity].
  destruct (cropPage _ _ _ _ _) as [nb|]; [|reflexivity].
  destruct (generateThumbnails nb thumbnailScale) as [ths|]; [|reflexivity].
  cbv zeta.
  destruct (loadPDFDocument nb) as [pdf|]; [|tabs_kept].
  destruct (renderPageToCanvas pdf (i + 1) 1.5%float); tabs_kept.
Qed.

Lemma saveAnnotations_tabs : forall s, tabs (fst (saveAnnotations s)) = tabs s.
Proof.
  intros s. unfold saveAnnotations.
  destruct (activeDoc s) as [active|]; [|reflexivity].
  destruct (activePageIndex s) as [i|]; [|reflexivity].
  destruct (currentAnnotations s) as [|t ts]; [reflexivity|].
  destruct (addTextToPage _ _ _) as [nb|]; [|reflexivity].
  destruct (generateThumbnails nb thumbnailScale) as [ths|]; [|reflexivity].
  cbv zeta.
  destruct (loadPDFDocument nb) as [pdf|]; [|tabs_kept].
  destruct (renderPageToCanvas pdf (i + 1) 1.5%float); tabs_kept.
Qed.

Lemma activeOpen_tabs : forall s s', tabs s' = tabs s -> activeOpen s -> activeOpen s'.
Proof.
  intros s s' E. unfold tabs in E. inversion E as [[Ed Ea]].
  unfold activeOpen. rewrite Ed, Ea. tauto.
Qed.

Lemma handleFileUpload_activeOpen : forall s randomUUID files,
  activeOpen s -> activeOpen (fst (handleFileUpload s randomUUID files)).
Proof.
  intros s randomUUID files O. unfold handleFileUpload.
  destruct files as [|file rest]; [exact O|].
  destruct (uploadLoop _ _ _ _) as [newDocs|]; [|exact O].
  cbv zeta. unfold activeOpen in *. cbn [fst documents activeDocId].
  rewrite map_app.
  assert (Old : match activeDocId s with
                | Some a => In a (map id (documents s) ++ map id newDocs)
                | None => True
                end).
  { destruct (activeDocId s); [apply in_or_app; left; exact O | exact I]. }
  destruct newDocs as [|first more]; [exact Old|].
  destruct (noActiveDoc s); [|exact Old].
  apply in_or_app. right. left. reflexivity.
Qed.

Lemma deleteDocument_activeOpen : forall s docId,
  activeOpen s -> activeOpen (deleteDocument s docId).
Proof.
  intros s docId O. unfold activeOpen, deleteDocument in *.
  cbn [documents activeDocId].
  destruct (activeDocId s) as [a|]; [|exact I].
  destruct (eqbStr a docId) eqn:E.
  - destruct (find _ (documents s)) as [d|] eqn:F; [|exact I].
    destruct (truthy (id d)); [|exact I].
    apply find_some in F. apply in_map, filter_In. exact F.
  - apply in_map_iff in O. destruct O as (d & Hid & Hin).
    apply in_map_iff. exists d. split; [exact Hid|].
    apply filter_In. split; [exact Hin|]. rewrite Hid, E. reflexivity.
Qed.

Lemma action_activeOpen : forall s s', action s s' -> activeOpen s -> activeOpen s'.
Proof.
  intros s s' A O. destruct A.
  - apply handleFileUpload_activeOpen. exact O.
  - unfold activeOpen, selectDocument. cbn [documents activeDocId].
    apply in_map. assumption.
  - apply deleteDocument_activeOpen. exact O.
  - exact O.
  - unfold selectAllPages. destruct (activeDoc s); exact O.
  - exact O.
  - exact (activeOpen_tabs _ _ (handleRotate_tabs s degrees) O).
  - exact (activeOpen_tabs _ _ (handleDeletePages_tabs s) O).
  - exact (activeOpen_tabs _ _ (handleMovePage_tabs s fromIndex toIndex) O).
  - exact (activeOpen_tabs _ _ (applyCrop_tabs s) O).
  - exact (activeOpen_tabs _ _ (saveAnnotations_tabs s) O).
Qed.

(** Throughout a session the active tab is none or names an open document,
    whatever the user uploads, clicks, edits or closes; and rotating,
    deleting or moving pages, cropping and saving texts never open, close,
    reorder or switch a tab. *)
Theorem active_tab_is_open :
  forall (s : AppState),
  session s ->
  activeOpen s
  /\ (documents s = [] -> activeDocId s = None)
  /\ (forall degrees, tabs (fst (handleRotate s degrees)) = tabs s)
  /\ tabs (fst (handleDeletePages s)) = tabs s
  /\ (forall fromIndex toIndex, tabs (fst (handleMovePage s fromIndex toIndex)) = tabs s)
  /\ tabs (fst (applyCrop s)) = tabs s
  /\ tabs (fst (saveAnnotations s)) = tabs s.
Proof.
  intros s S.
  assert (O : activeOpen s).
  { induction S as [|s s' _ IH A]; [exact I|].
    exact (action_activeOpen s s' A IH). }
  split; [exact O|]. split.
  - intros E. unfold activeOpen in O. rewrite E in O.
    destruct (activeDocId s); [destruct O | reflexivity].
  - split; [intros degrees; apply handleRotate_tabs|].
    split; [apply handleDeletePages_tabs|].
    split; [intros f t; apply handleMovePage_tabs|].
    split; [apply applyCrop_tabs | apply saveAnnotations_tabs].
Qed.

Lemma active_tab_is_open_witness :
  activeOpen (deleteDocument uploadedTen sampleUUID)
  /\ (documents (deleteDocument uploadedTen sampleUUID) = [] ->
      activeDocId (deleteDocument uploadedTen sampleUUID) = None)
  /\ (forall degrees,
        tabs (fst (handleRotate (deleteDocument uploadedTen sampleUUID) degrees))
        = tabs (deleteDocument uploadedTen sampleUUID))
  /\ tabs (fst (handleDeletePages (deleteDocument uploadedTen sampleUUID)))
     = tabs (deleteDocument uploadedTen sampleUUID)
  /\ (forall fromIndex toIndex,
        tabs (fst (handleMovePage (deleteDocument uploadedTen sampleUUID)
                     fromIndex toIndex))
        = tabs (deleteDocument uploadedTen sampleUUID))
  /\ tabs (fst (applyCrop (deleteDocument uploadedTen sampleUUID)))
     = tabs (deleteDocument uploadedTen sampleUUID)
  /\ tabs (fst (saveAnnotations (deleteDocument uploadedTen sampleUUID)))
     = tabs (deleteDocument uploadedTen sampleUUID).
Proof.
  apply (active_tab_is_open (deleteDocument uploadedTen sampleUUID)).
  apply session_next with (s := uploadedTen).
  - apply session_next with (s := initialState).
    + apply session_start.
    + apply act_upload.
  - apply act_close.
Defined.

Example handleMergeAll_examples :
  map pageCount (documents twoOpen) = [10; 1]%nat
  /\ handleMergeAll twoOpen = Merged (save (tenPages ++ letterPage))
  /\ handleMergeAll uploadedTen = NeedTwoDocuments
  /\ tabs (deleteDocument twoOpen sampleUUID)
     = ([js "9f1c2d3e-0a1b-4c5d-8e9f-001122334455"],
        Some (js "9f1c2d3e-0a1b-4c5d-8e9f-001122334455")).
Proof. vm_compute. repeat split; reflexivity. Qed.
